(** * Watch descriptors of packages/qwik/src/core/use/use-watch.ts

    A shallow embedding of the watch runner ([runWatch], [cleanupWatch],
    [destroyWatch]), of the tracker it hands to a watch body, of the two
    registrars [useWatchQrl] and [useClientEffectQrl] and of the mount
    registrars, over an explicit model of the JavaScript promise heap and
    microtask queue. *)

From Stdlib Require Import ZArith Lia DecimalString.
From stdpp Require Import base list strings.

Local Open Scope Z_scope.

(** ** 32-bit integer operators of JavaScript *)

Module Int32.

Definition wrap (z : Z) : Z := (z + 2 ^ 31) mod 2 ^ 32 - 2 ^ 31.

Definition and (a b : Z) : Z := Z.land (wrap a) (wrap b).
Definition or (a b : Z) : Z := Z.lor (wrap a) (wrap b).
Definition not (a : Z) : Z := Z.lnot (wrap a).
Definition shl (a n : Z) : Z := wrap (Z.shiftl (wrap a) (n mod 32)).

(** A number used as a condition: only zero is falsy (flags are never NaN). *)
Definition truthy (z : Z) : bool := negb (z =? 0).

End Int32.

Definition WatchFlagsIsEffect : Z := Int32.shl 1 0.
Definition WatchFlagsIsWatch : Z := Int32.shl 1 1.
Definition WatchFlagsIsDirty : Z := Int32.shl 1 2.
Definition WatchFlagsIsCleanup : Z := Int32.shl 1 3.

(** ** Values *)

Abbreviation pid := nat (only parsing).

Inductive error :=
| AssertionError (text : string)
| TypeError (text : string)
| RangeError (text : string)
| Thrown (code : nat).

(** A callable returned by a watch body.  Calling it runs user code, which
    can reach the exported [cleanupWatch]: [fn_reenters] tells whether the
    function calls [cleanupWatch] on the descriptor it was stored in, and
    [fn_throws] is what it raises after that, if anything. *)
Record fnref := { fn_id : nat; fn_throws : option error; fn_reenters : bool }.

#[warnings="-register-all"]
Inductive jsval :=
| VUndefined
| VNumber (n : Z)
| VString (s : string)
| VFunction (fn : fnref)
| VWatch
| VObject (target : option nat) (fields : list (string * jsval)) (proto : option jsval).

(** What a call hands back: a plain value or a promise. *)
Inductive ValueOrPromise :=
| Plain (v : jsval)
| Promise (p : pid).

Definition isFunction (v : jsval) : option fnref :=
  match v with VFunction fn => Some fn | _ => None end.

(** A string used as a condition: the empty string is falsy. *)
Definition truthy_string (s : string) : bool :=
  match s with EmptyString => false | String _ _ => true end.

(** A property key, as [keyof T] admits them: a name or a number (an index
    of an array). *)
Inductive key :=
| KString (s : string)
| KNumber (n : Z).
Coercion KString : string >-> key.

Global Instance key_eq_dec : EqDecision key.
Proof. solve_decision. Defined.

(** A key used as a condition: the empty string and zero are falsy. *)
Definition truthy_key (k : key) : bool :=
  match k with
  | KString s => truthy_string s
  | KNumber n => negb (n =? 0)
  end.

(** The property a key names: a number names the property spelled by its
    decimal form. *)
Definition key_name (k : key) : string :=
  match k with
  | KString s => s
  | KNumber n => NilZero.string_of_int (Z.to_int n)
  end.

(** An own property, if the object has it. *)
Fixpoint own_prop (k : string) (l : list (string * jsval)) : option jsval :=
  match l with
  | [] => None
  | (k', v) :: l' => if String.eqb k k' then Some v else own_prop k l'
  end.

(** [obj[prop]] on an object: the own property, or else the property of the
    prototype, along the chain.  The tracker reads only from objects. *)
Fixpoint get_prop (obj : jsval) (prop : key) : jsval :=
  match obj with
  | VObject _ fields proto =>
      match own_prop (key_name prop) fields with
      | Some v => v
      | None =>
          match proto with
          | Some p => get_prop p prop
          | None => VUndefined
          end
      end
  | _ => VUndefined
  end.

(** ** Watch bodies

    The function behind a QRL is user code.  One invocation of it is a
    script: the calls it makes while it runs synchronously, and how it
    completes.  [AWrite] is a write to a property the descriptor is
    subscribed to; [Await] is a body that hands back a promise which the
    environment settles later.  A script has no step that calls [runWatch]
    from within the body; bodies that do are in [Reentrant] below. *)

Inductive action :=
| ATrack (obj : jsval) (prop : option key)
| AWrite.

Inductive completion :=
| Return (v : jsval)
| Throw (e : error)
| Await.

Record script := { acts : list action; fin : completion }.

(** The n-th invocation of the function runs [q n]. *)
Definition QRL := nat → script.

Module Watch.
Record t := {
  qrl : QRL;
  el : nat;
  f : Z;
  i : nat;
  destroy : option fnref;
  running : option pid;
}.
End Watch.
Abbreviation WatchDescriptor := Watch.t.

(** ** Promise heap, microtasks, subscriptions, log *)

(** The callbacks this file hands to [then] and [.then], by the promise they
    settle.  [RRun] and [RCapture] are the two callbacks of [runWatch];
    [RDeferred] is the callback of [useWatchQrl], [RAdopt] and [RForward]
    resolve the promise [d] its [.then] made with the promise [p] that the
    callback hands back. *)
Inductive reaction :=
| RRun (p : pid)
| RCapture (p : pid)
| RDeferred (d : pid)
| RAdopt (d p : pid)
| RForward (d : pid).

Inductive owner := ORun | OBody (n : nat).

Inductive pstate :=
| Pending (rs : list reaction)
| Fulfilled (v : jsval)
| Rejected (e : error).

Record cell := { own : owner; st : pstate }.

(** A promise made by [.then] in a registrar.  No callback is ever parked
    on one, so they are kept in a table of their own. *)
Inductive dstate :=
| DPending
| DSettled (r : error + jsval).

Inductive job := Job (r : reaction) (outcome : error + jsval).

Inductive subscriber := SubWatch | SubOther (id : nat).

Record sub := { sub_by : subscriber; sub_target : nat; sub_prop : option key }.

Inductive event :=
| ELogDebug (text : string)
| ELogError (e : error)
| EUnhandled (e : error)
| ECleanup (fn : fnref)
| EClearSub
| EBodyStart (n : nat)
| ETracked (v : jsval)
| EBodyEnd (n : nat)
| ETeardown (n : nat).

(** The machine follows one descriptor, [watch], through the promises and
    the microtask queue of the page: [runWatch] touches no other
    descriptor.  [log] is kept newest first. *)
Record state := {
  watch : WatchDescriptor;
  heap : list cell;
  derived : list dstate;
  queue : list job;
  subs : list sub;
  calls : nat;
  log : list event;
}.

Global Instance subscriber_eq_dec : EqDecision subscriber.
Proof. solve_decision. Defined.
Global Instance sub_eq_dec : EqDecision sub.
Proof. solve_decision. Defined.

(** ** Statements that may throw *)

Definition M (A : Type) : Type := state → (error + A) * state.

Global Instance M_ret : MRet M := λ A a s, (inr a, s).
Global Instance M_bind : MBind M := λ A B k m s,
  match m s with
  | (inr a, s') => k a s'
  | (inl e, s') => (inl e, s')
  end.

Definition throw {A} (e : error) : M A := λ s, (inl e, s).

(** [try { body } catch (err) { handler(err) }] *)
Definition try_catch {A} (body : M A) (handler : error → M A) : M A := λ s,
  match body s with
  | (inr a, s') => (inr a, s')
  | (inl e, s') => handler e s'
  end.

Definition get {A} (proj : state → A) : M A := λ s, (inr (proj s), s).
Definition modify (g : state → state) : M unit := λ s, (inr tt, g s).
Definition exec {A} (m : M A) (s : state) : state := snd (m s).

Definition with_watch (g : WatchDescriptor → WatchDescriptor) (s : state) : state :=
  {| watch := g (watch s); heap := heap s; derived := derived s; queue := queue s; subs := subs s;
     calls := calls s; log := log s |}.
Definition with_heap (h : list cell) (s : state) : state :=
  {| watch := watch s; heap := h; derived := derived s; queue := queue s; subs := subs s;
     calls := calls s; log := log s |}.
Definition with_derived (d : list dstate) (s : state) : state :=
  {| watch := watch s; heap := heap s; derived := d; queue := queue s; subs := subs s;
     calls := calls s; log := log s |}.
Definition with_queue (q : list job) (s : state) : state :=
  {| watch := watch s; heap := heap s; derived := derived s; queue := q; subs := subs s;
     calls := calls s; log := log s |}.
Definition with_subs (l : list sub) (s : state) : state :=
  {| watch := watch s; heap := heap s; derived := derived s; queue := queue s; subs := l;
     calls := calls s; log := log s |}.
Definition with_calls (n : nat) (s : state) : state :=
  {| watch := watch s; heap := heap s; derived := derived s; queue := queue s; subs := subs s;
     calls := n; log := log s |}.
Definition with_log (l : list event) (s : state) : state :=
  {| watch := watch s; heap := heap s; derived := derived s; queue := queue s; subs := subs s;
     calls := calls s; log := l |}.

Definition set_f (z : Z) (w : WatchDescriptor) : WatchDescriptor :=
  {| Watch.qrl := Watch.qrl w; Watch.el := Watch.el w; Watch.f := z; Watch.i := Watch.i w;
     Watch.destroy := Watch.destroy w; Watch.running := Watch.running w |}.
Definition set_destroy (d : option fnref) (w : WatchDescriptor) : WatchDescriptor :=
  {| Watch.qrl := Watch.qrl w; Watch.el := Watch.el w; Watch.f := Watch.f w; Watch.i := Watch.i w;
     Watch.destroy := d; Watch.running := Watch.running w |}.
Definition set_running (r : option pid) (w : WatchDescriptor) : WatchDescriptor :=
  {| Watch.qrl := Watch.qrl w; Watch.el := Watch.el w; Watch.f := Watch.f w; Watch.i := Watch.i w;
     Watch.destroy := Watch.destroy w; Watch.running := r |}.

Definition emit (e : event) : M unit := modify (λ s, with_log (e :: log s) s).

(** Modelled from the spec: [logDebug] and [logError] of ../util/log, which
    only write to the console. *)
Definition logDebug (text : string) : M unit := emit (ELogDebug text).
Definition logError (e : error) : M unit := emit (ELogError e).

(** Modelled from the spec: [noSerialize] of ../object/q-object marks its
    argument as session-local and hands it back. *)
Definition noSerialize {A} (x : A) : A := x.

(** ** Promises *)

(** A fresh promise in the given state ([new Promise], [Promise.resolve]). *)
Definition alloc (o : owner) (p : pstate) : M pid := λ s,
  (inr (length (heap s)), with_heap (heap s ++ [{| own := o; st := p |}]) s).

Definition enqueue (js : list job) : M unit :=
  modify (λ s, with_queue (queue s ++ js) s).

Definition settled_as (r : error + jsval) : pstate :=
  match r with inl e => Rejected e | inr v => Fulfilled v end.

(** Settling a pending promise releases its reactions as microtasks, in the
    order they were registered; a promise that is already settled ignores
    the call. *)
Definition settle (p : pid) (r : error + jsval) : M unit := λ s,
  match heap s !! p with
  | Some {| own := o; st := Pending rs |} =>
      (inr tt,
       with_queue (queue s ++ map (λ k, Job k r) rs)
         (with_heap (<[p := {| own := o; st := settled_as r |}]> (heap s)) s))
  | _ => (inr tt, s)
  end.

Definition resolve (p : pid) (v : jsval) : M unit := settle p (inr v).
Definition reject (p : pid) (e : error) : M unit := settle p (inl e).

(** [p.then(callback)]: the callback is parked on a pending promise, and
    becomes a microtask at once on a settled one. *)
Definition subscribe (p : pid) (k : reaction) : M unit := λ s,
  match heap s !! p with
  | Some {| own := o; st := Pending rs |} =>
      (inr tt, with_heap (<[p := {| own := o; st := Pending (rs ++ [k]) |}]> (heap s)) s)
  | Some {| own := _; st := Fulfilled v |} => enqueue [Job k (inr v)] s
  | Some {| own := _; st := Rejected e |} => enqueue [Job k (inl e)] s
  | None => (inr tt, s)
  end.

Definition alloc_derived : M pid := λ s,
  (inr (length (derived s)), with_derived (derived s ++ [DPending]) s).

Definition settle_derived (d : pid) (r : error + jsval) : M unit :=
  modify (λ s, match derived s !! d with
               | Some DPending => with_derived (<[d := DSettled r]> (derived s)) s
               | _ => s
               end).

(** Modelled from the spec: [then] of ../util/promises, which is not in
    src/.  On a plain value the callback runs at once, on a promise it is
    chained with [.then] ("awaiting if asynchronous").  [r] names the
    callback as a reaction; [react] below runs the same code for it. *)
Definition then_ (x : ValueOrPromise) (r : reaction) (callback : jsval → M unit) : M unit :=
  match x with
  | Plain v => callback v
  | Promise p => subscribe p r
  end.

(** ** Subscription manager *)

Definition watch_sub (target : nat) (prop : option key) : sub :=
  {| sub_by := SubWatch; sub_target := target; sub_prop := prop |}.

(** Modelled from the spec: [$getLocal$(target).$addSub$(watch, prop)] of
    the subscription manager, which is not in src/.  It records a
    subscription of the descriptor to the whole target (no property) or to
    one property, and recording it again changes nothing. *)
Definition add_sub (e : sub) (l : list sub) : list sub :=
  if decide (e ∈ l) then l else l ++ [e].

Definition addSub (target : nat) (prop : option key) : M unit :=
  modify (λ s, with_subs (add_sub (watch_sub target prop) (subs s)) s).

(** Modelled from the spec: [$clearSub$(watch)] removes the subscriptions
    of this descriptor and of no other subscriber. *)
Definition clearSub : M unit :=
  emit EClearSub;;
  modify (λ s, with_subs (filter (λ e, sub_by e ≠ SubWatch) (subs s)) s).

(** Modelled from the spec: a write to a subscribed property sets IS_DIRTY
    ([watch.f |= WatchFlagsIsDirty] in ../render/notify-render). *)
Definition markDirty : M unit :=
  modify (with_watch (λ w, set_f (Int32.or (Watch.f w) WatchFlagsIsDirty) w)).

(** ** The tracker *)

(** Modelled from the spec: [getProxyTarget] of ../object/q-object gives the
    target of a proxied object and [undefined] for anything else. *)
Definition getProxyTarget (obj : jsval) : option nat :=
  match obj with
  | VObject target _ _ => target
  | _ => None
  end.

(** Modelled from the spec: [assertDefined] of ../assert/assert raises an
    assertion error on an undefined value. *)
Definition assertDefined {A} (value : option A) (text : string) : M A :=
  match value with
  | Some a => mret a
  | None => throw (AssertionError text)
  end.

Definition track (obj : jsval) (prop : option key) : M jsval :=
  target ← assertDefined (getProxyTarget obj) "Expected a Proxy object to track";
  addSub target prop;;
  match prop with
  | Some p => if truthy_key p then mret (get_prop obj p) else mret obj
  | None => mret obj
  end.

(** ** Invoking the function behind the QRL *)

Definition next_call : M nat := λ s, (inr (calls s), with_calls (S (calls s)) s).

(** The synchronous part of a body.  Without a tracker argument a body that
    calls it fails on the call. *)
Fixpoint run_actions (tracker : bool) (l : list action) : M unit :=
  match l with
  | [] => mret tt
  | ATrack obj prop :: l' =>
      v ← (if tracker then track obj prop else throw (TypeError "track is not a function"));
      emit (ETracked v);;
      run_actions tracker l'
  | AWrite :: l' => markDirty;; run_actions tracker l'
  end.

(** Modelled from the spec: [qrl.invokeFn(el, ctx, beforeFn)(track)].  The
    wrapper calls [beforeFn] and then the function itself. *)
Definition invokeFn (beforeFn : M unit) : M ValueOrPromise :=
  beforeFn;;
  n ← next_call;
  q ← get (λ s, Watch.qrl (watch s));
  emit (EBodyStart n);;
  try_catch (run_actions true (acts (q n))) (λ e, emit (EBodyEnd n);; throw e);;
  match fin (q n) with
  | Return v => emit (EBodyEnd n);; mret (Plain v)
  | Throw e => emit (EBodyEnd n);; throw e
  | Await => b ← alloc (OBody n) (Pending []); mret (Promise b)
  end.

(** Modelled from the spec: [qrl.invokeFn(el)()], the registered function
    called with no argument; what it hands back is dropped by the caller. *)
Definition invokeBare : M unit :=
  n ← next_call;
  q ← get (λ s, Watch.qrl (watch s));
  emit (ETeardown n);;
  run_actions false (acts (q n));;
  match fin (q n) with
  | Throw e => throw e
  | Return _ | Await => mret tt
  end.

(** ** The runner *)

(** [destroy()], the call of a stored cleanup function; [nested] is what a
    call of [cleanupWatch(watch)] from inside the function does. *)
Definition call_cleanup (nested : M unit) (fn : fnref) : M unit :=
  emit (ECleanup fn);;
  (if fn_reenters fn then nested else mret tt);;
  match fn_throws fn with Some err => throw err | None => mret tt end.

(** [cleanupWatch] with room for [depth] nested calls on the call stack; a
    call that finds no room fails as the engine does. *)
Fixpoint cleanupWatch_at (depth : nat) : M unit :=
  destroy ← get (λ s, Watch.destroy (watch s));
  match destroy with
  | Some fn =>
      modify (with_watch (set_destroy None));;
      try_catch
        (call_cleanup
           (match depth with
            | O => throw (RangeError "Maximum call stack size exceeded")
            | S d => cleanupWatch_at d
            end)
           fn)
        (λ err, logError err)
  | None => mret tt
  end.

(** One nested call is the deepest the source ever goes: more room changes
    nothing ([cleanupWatch_at_room] below). *)
Definition cleanupWatch : M unit := cleanupWatch_at 1.
Global Arguments cleanupWatch : simpl never.

(** [(returnValue) => { if (isFunction(returnValue)) { watch.destroy = ... } resolve(watch) }] *)
Definition capture (p : pid) (returnValue : jsval) : M unit :=
  match isFunction returnValue with
  | Some fn => modify (with_watch (set_destroy (Some (noSerialize fn))))
  | None => mret tt
  end;;
  resolve p VWatch.

(** The callback [runWatch] hands to [then(watch.running, ...)], for the
    promise [p] it is building. *)
Definition watchRun (p : pid) : M unit :=
  cleanupWatch;;
  r ← invokeFn clearSub;
  then_ r (RCapture p) (capture p).

Definition as_value_or_promise (running : option pid) : ValueOrPromise :=
  match running with
  | Some r => Promise r
  | None => Plain VUndefined
  end.

Definition runWatch : M pid :=
  f ← get (λ s, Watch.f (watch s));
  if negb (Int32.truthy (Int32.and f WatchFlagsIsDirty)) then
    logDebug "Watch is not dirty, skipping run";;
    alloc ORun (Fulfilled VWatch)
  else
    modify (with_watch (set_f (Int32.and f (Int32.not WatchFlagsIsDirty))));;
    promise ← alloc ORun (Pending []);
    (* the executor runs inside the constructor, which turns a throw into a rejection *)
    try_catch
      (running ← get (λ s, Watch.running (watch s));
       then_ (as_value_or_promise running) (RRun promise) (λ _, watchRun promise))
      (λ e, reject promise e);;
    modify (with_watch (set_running (Some (noSerialize promise))));;
    mret promise.

Definition destroyWatch : M unit :=
  f ← get (λ s, Watch.f (watch s));
  if Int32.truthy (Int32.and f WatchFlagsIsCleanup) then
    modify (with_watch (set_f (Int32.and f (Int32.not WatchFlagsIsCleanup))));;
    invokeBare
  else
    cleanupWatch.

(** ** The event loop *)

(** What each reaction does when the promise it is parked on fulfils. *)
Definition react (r : reaction) (v : jsval) : M unit :=
  match r with
  | RRun p => watchRun p
  | RCapture p => capture p v
  | RDeferred d =>
      (* () => runWatch(watch, containerState): [d] is resolved with the promise handed back *)
      p ← runWatch;
      enqueue [Job (RAdopt d p) (inr VUndefined)]
  | RAdopt d p => subscribe p (RForward d)
  | RForward d => settle_derived d (inr v)
  end.

(** Only a forwarding reaction has a rejection handler.  For the others the
    promise made by [.then] is rejected and nobody holds it. *)
Definition react_rejected (r : reaction) (e : error) : M unit :=
  match r with
  | RForward d => settle_derived d (inl e)
  | RRun _ | RCapture _ | RDeferred _ | RAdopt _ _ => emit (EUnhandled e)
  end.

Definition run_job (j : job) : M unit :=
  match j with
  | Job r (inr v) =>
      try_catch (react r v)
        (λ e, match r with
              | RDeferred d => settle_derived d (inl e)
              | _ => emit (EUnhandled e)
              end)
  | Job r (inl e) => react_rejected r e
  end.

Definition tick : M unit := λ s,
  match queue s with
  | [] => (inr tt, s)
  | j :: q => run_job j (with_queue q s)
  end.

(** The environment settles the promise an asynchronous body handed back. *)
Definition settle_body (b : pid) (r : error + jsval) : M unit := λ s,
  match heap s !! b with
  | Some {| own := OBody n; st := Pending _ |} => (emit (EBodyEnd n);; settle b r) s
  | _ => (inr tt, s)
  end.

Inductive input :=
| InRun
| InWrite
| InTick
| InSettle (b : pid) (r : error + jsval)
| InDestroy.

Definition step (i : input) : M unit :=
  match i with
  | InRun => runWatch;; mret tt
  | InWrite => markDirty
  | InTick => tick
  | InSettle b r => settle_body b r
  | InDestroy => destroyWatch
  end.

Definition run_inputs (l : list input) (s : state) : state :=
  fold_left (λ s i, exec (step i) s) l s.

(** ** Bodies that call back into the runner

    The function behind a QRL is arbitrary code and [runWatch] is exported:
    a body can call [runWatch] on its own descriptor while it runs.  The
    scripts of this module add that step to the ones above, and [runWatch]
    and the callbacks it builds are translated once more, from the same
    lines, with the body's call going back into [runWatch].  The descriptor
    runs the function [q]; [depth] is the room left on the call stack, and a
    call that finds none fails as the engine does. *)

Module Reentrant.

Inductive raction :=
| Inert (a : action)
| ARunWatch.

Record rscript := { racts : list raction; rfin : completion }.

Definition rQRL := nat → rscript.

(** A function that never calls back. *)
Definition lift (q : QRL) : rQRL :=
  λ n, {| racts := map Inert (acts (q n)); rfin := fin (q n) |}.

Definition inert (a : action) : M unit := run_actions true [a].

Section Body.

(** What [runWatch(watch, containerState)] does when the body calls it. *)
Variable nested : M pid.

Fixpoint run_actions (l : list raction) : M unit :=
  match l with
  | [] => mret tt
  | Inert a :: l' => inert a;; run_actions l'
  | ARunWatch :: l' => nested;; run_actions l'
  end.

Definition invokeFn (q : rQRL) (beforeFn : M unit) : M ValueOrPromise :=
  beforeFn;;
  n ← next_call;
  emit (EBodyStart n);;
  try_catch (run_actions (racts (q n))) (λ e, emit (EBodyEnd n);; throw e);;
  match rfin (q n) with
  | Return v => emit (EBodyEnd n);; mret (Plain v)
  | Throw e => emit (EBodyEnd n);; throw e
  | Await => b ← alloc (OBody n) (Pending []); mret (Promise b)
  end.

Definition watchRun (q : rQRL) (p : pid) : M unit :=
  cleanupWatch;;
  r ← invokeFn q clearSub;
  then_ r (RCapture p) (capture p).

Definition runWatch_at (q : rQRL) : M pid :=
  f ← get (λ s, Watch.f (watch s));
  if negb (Int32.truthy (Int32.and f WatchFlagsIsDirty)) then
    logDebug "Watch is not dirty, skipping run";;
    alloc ORun (Fulfilled VWatch)
  else
    modify (with_watch (set_f (Int32.and f (Int32.not WatchFlagsIsDirty))));;
    promise ← alloc ORun (Pending []);
    try_catch
      (running ← get (λ s, Watch.running (watch s));
       then_ (as_value_or_promise running) (RRun promise) (λ _, watchRun q promise))
      (λ e, reject promise e);;
    modify (with_watch (set_running (Some (noSerialize promise))));;
    mret promise.

End Body.

Fixpoint runWatch (depth : nat) (q : rQRL) : M pid :=
  runWatch_at
    (match depth with
     | O => throw (RangeError "Maximum call stack size exceeded")
     | S d => runWatch d q
     end)
    q.

End Reentrant.

(** ** Registrars *)

Inductive UseEffectRunOptions := RunVisible | RunLoad.

Record UseEffectOptions := { run : option UseEffectRunOptions }.

(** [getWatchHandlerQrl]: a QRL for [handleWatch] that captures the watch. *)
Record WatchHandler := { handler_symbol : string; handler_el : nat; handler_i : nat }.

(** Modelled from the spec: what the registrars reach through
    [useSequentialScope], [useHostElement], [useRenderContext], [getContext],
    [useWaitOn], [useResumeQrl], [useVisibleQrl] and [useDocument], none of
    which is in src/, at one call site: the value and index of the
    sequential scope, the host element, the platform, the watches of the
    element, the promises setup waits on, the handlers registered for
    resume and for visibility, and the elements the observer of the document
    watches. *)
Record component := {
  scope_watch : bool;
  scope_i : nat;
  hostElement : nat;
  isServer : bool;
  el_watches : list WatchDescriptor;
  waitOn : list pid;
  resumeQrls : list WatchHandler;
  visibleQrls : list WatchHandler;
  qO : option (list nat);
}.

Definition getWatchHandlerQrl (watch : WatchDescriptor) : WatchHandler :=
  {| handler_symbol := "handleWatch"; handler_el := Watch.el watch; handler_i := Watch.i watch |}.

Definition setWatch (c : component) : component :=
  {| scope_watch := true; scope_i := scope_i c; hostElement := hostElement c;
     isServer := isServer c; el_watches := el_watches c; waitOn := waitOn c;
     resumeQrls := resumeQrls c; visibleQrls := visibleQrls c; qO := qO c |}.
Definition push_watch (w : WatchDescriptor) (c : component) : component :=
  {| scope_watch := scope_watch c; scope_i := scope_i c; hostElement := hostElement c;
     isServer := isServer c; el_watches := el_watches c ++ [w]; waitOn := waitOn c;
     resumeQrls := resumeQrls c; visibleQrls := visibleQrls c; qO := qO c |}.

(** Modelled from the spec: [useWaitOn] of ./use-core records a promise
    that setup awaits ("awaited as part of setup, not fire-and-forget"). *)
Definition useWaitOn (p : pid) (c : component) : component :=
  {| scope_watch := scope_watch c; scope_i := scope_i c; hostElement := hostElement c;
     isServer := isServer c; el_watches := el_watches c; waitOn := waitOn c ++ [p];
     resumeQrls := resumeQrls c; visibleQrls := visibleQrls c; qO := qO c |}.
(** Modelled from the spec: [useResumeQrl] and [useVisibleQrl] of ./use-on
    register a handler with the resume-on-load and the visibility mechanism. *)
Definition useResumeQrl (h : WatchHandler) (c : component) : component :=
  {| scope_watch := scope_watch c; scope_i := scope_i c; hostElement := hostElement c;
     isServer := isServer c; el_watches := el_watches c; waitOn := waitOn c;
     resumeQrls := resumeQrls c ++ [h]; visibleQrls := visibleQrls c; qO := qO c |}.
Definition useVisibleQrl (h : WatchHandler) (c : component) : component :=
  {| scope_watch := scope_watch c; scope_i := scope_i c; hostElement := hostElement c;
     isServer := isServer c; el_watches := el_watches c; waitOn := waitOn c;
     resumeQrls := resumeQrls c; visibleQrls := visibleQrls c ++ [h]; qO := qO c |}.
Definition observe (c : component) : component :=
  {| scope_watch := scope_watch c; scope_i := scope_i c; hostElement := hostElement c;
     isServer := isServer c; el_watches := el_watches c; waitOn := waitOn c;
     resumeQrls := resumeQrls c; visibleQrls := visibleQrls c;
     qO := match qO c with Some els => Some (els ++ [hostElement c]) | None => None end |}.

Definition useRunWatch (watch : WatchDescriptor) (run : option UseEffectRunOptions)
    (c : component) : component :=
  match run with
  | Some RunLoad => useResumeQrl (getWatchHandlerQrl watch) c
  | Some RunVisible => useVisibleQrl (getWatchHandlerQrl watch) c
  | None => c
  end.

Definition mkWatch (qrl : QRL) (el : nat) (f : Z) (i : nat) : WatchDescriptor :=
  {| Watch.qrl := qrl; Watch.el := el; Watch.f := f; Watch.i := i;
     Watch.destroy := None; Watch.running := None |}.

(** The registrars run on a component context and on the machine state; the
    descriptor they create becomes the one the machine follows. *)
Definition useWatchQrl (qrl : QRL) (opts : option UseEffectOptions) (c : component)
    : M component :=
  if scope_watch c then mret c
  else
    let watch := mkWatch qrl (hostElement c) (Int32.or WatchFlagsIsDirty WatchFlagsIsWatch)
                   (scope_i c) in
    modify (with_watch (λ _, watch));;
    (* Promise.resolve().then(() => runWatch(watch, containerState)): the callback of a
       promise that is already fulfilled is a microtask at once; [d] is what .then makes *)
    d ← alloc_derived;
    enqueue [Job (RDeferred d) (inr VUndefined)];;
    let c' := useWaitOn d (push_watch watch (setWatch c)) in
    mret (if isServer c then useRunWatch watch (opts ≫= run) c' else c').

Definition useClientEffectQrl (qrl : QRL) (opts : option UseEffectOptions) (c : component)
    : M component :=
  if scope_watch c then mret c
  else
    let watch := mkWatch qrl (hostElement c) WatchFlagsIsEffect (scope_i c) in
    modify (with_watch (λ _, watch));;
    let c' := push_watch watch (setWatch c) in
    mret (observe (useRunWatch watch (Some (default RunVisible (opts ≫= run))) c')).

Definition is_settled (s : state) (d : pid) : bool :=
  match derived s !! d with
  | Some (DSettled _) => true
  | _ => false
  end.

(** Modelled from the spec: setup goes on once every promise handed to
    [useWaitOn] has settled. *)
Definition setup_ready (c : component) (s : state) : bool :=
  forallb (is_settled s) (waitOn c).

(** ** Overlap of body executions, read off the log *)

(** [flight l] is [None] when some body started while an earlier one had not
    settled; otherwise it tells whether a body is in flight at the end. *)
Fixpoint flight (l : list event) : option bool :=
  match l with
  | [] => Some false
  | e :: older =>
      match flight older with
      | None => None
      | Some open =>
          match e with
          | EBodyStart _ => if open then None else Some true
          | EBodyEnd _ => Some false
          | _ => Some open
          end
      end
  end.

Definition is_dirty (w : WatchDescriptor) : bool :=
  Int32.truthy (Int32.and (Watch.f w) WatchFlagsIsDirty).
Definition is_cleanup (w : WatchDescriptor) : bool :=
  Int32.truthy (Int32.and (Watch.f w) WatchFlagsIsCleanup).

(** The state [cleanupWatch] leaves when the slot holds [fn]. *)
Definition cleaned (fn : fnref) (s : state) : state :=
  with_log (match fn_throws fn with
            | Some err => [ELogError err; ECleanup fn]
            | None => [ECleanup fn]
            end ++ log s)
    (with_watch (set_destroy None) s).

Definition is_tracked (e : event) : Prop := ∃ v, e = ETracked v.

Definition fresh (w : WatchDescriptor) : state :=
  {| watch := w; heap := []; derived := []; queue := []; subs := []; calls := 0%nat;
     log := [] |}.

(** ** The single-flight invariant *)

Definition count {A} (P : A → bool) (l : list A) : nat := length (List.filter P l).
Global Arguments count {A} P l : simpl never.

Definition run_reaction (r : reaction) : bool :=
  match r with
  | RRun _ | RCapture _ => true
  | RDeferred _ | RAdopt _ _ | RForward _ => false
  end.

(** A microtask that will run one of the two callbacks of [runWatch]. *)
Definition run_job_b (j : job) : bool :=
  match j with
  | Job r (inr _) => run_reaction r
  | Job _ (inl _) => false
  end.

(** The promise of a body that has not settled. *)
Definition body_pending (c : cell) : bool :=
  match c with
  | {| own := OBody _; st := Pending _ |} => true
  | _ => false
  end.

(** How many callbacks of [runWatch] are parked on a promise. *)
Definition parked (c : cell) : nat :=
  match st c with
  | Pending rs => count run_reaction rs
  | _ => 0%nat
  end.

(** What can start or resume a run: a queued callback or a body in flight. *)
Definition tokens (s : state) : nat :=
  (count run_job_b (queue s) + count body_pending (heap s))%nat.

Definition unfulfilled (h : list cell) (r : pid) : Prop :=
  ∃ c, h !! r = Some c ∧ ∀ v, st c ≠ Fulfilled v.

(** The invariant, for the handle [ro] that [watch.running] holds or is
    about to hold. *)
Record inv_at (ro : option pid) (s : state) : Prop := {
  inv_cells : Forall (λ c, (parked c ≤ 1)%nat) (heap s);
  inv_handle : ∀ r, ro = Some r → ∃ c, heap s !! r = Some c ∧ parked c = 0%nat;
  inv_flight : ∃ open : bool,
    flight (log s) = Some open
    ∧ count body_pending (heap s) = (if open then 1 else 0)%nat;
  inv_tokens : (tokens s ≤ 1)%nat;
  inv_busy : tokens s = 0%nat ∨ ∃ r, ro = Some r ∧ unfulfilled (heap s) r;
}.

Definition inv (s : state) : Prop := inv_at (Watch.running (watch s)) s.

(** The state in which the body starts: [beforeFn] has run and the
    invocation is counted. *)
Definition body_entry (s : state) : state :=
  with_log (EBodyStart (calls s) :: EClearSub :: log s)
    (with_calls (S (calls s))
       (with_subs (filter (λ e, sub_by e ≠ SubWatch) (subs s)) s)).

Definition flight_neutral (e : event) : Prop :=
  match e with
  | EBodyStart _ | EBodyEnd _ => False
  | _ => True
  end.

(** The body has settled within the call. *)
Definition ended (n : nat) (s : state) : state := with_log (EBodyEnd n :: log s) s.

(** The body handed back a promise, with the callback [k] parked on it. *)
Definition suspended (n : nat) (ks : list reaction) (s : state) : state :=
  with_heap (heap s ++ [{| own := OBody n; st := Pending ks |}]) s.

(** The state in which the executor of [runWatch] runs: the flag is
    cleared and the promise is made. *)
Definition started (s : state) : state :=
  with_heap (heap s ++ [{| own := ORun; st := Pending [] |}])
    (with_watch (set_f (Int32.and (Watch.f (watch s)) (Int32.not WatchFlagsIsDirty))) s).

Definition set_handle (p : pid) (s : state) : state :=
  with_watch (set_running (Some (noSerialize p))) s.
Global Arguments started s : simpl never.

(** No body was started while an earlier one was in flight. *)
Definition single_flight (l : list event) : Prop := ∃ open : bool, flight l = Some open.

(** The descriptors the two registrars create. *)
Definition watch_of (qrl : QRL) (c : component) : WatchDescriptor :=
  mkWatch qrl (hostElement c) (Int32.or WatchFlagsIsDirty WatchFlagsIsWatch) (scope_i c).
Definition effect_of (qrl : QRL) (c : component) : WatchDescriptor :=
  mkWatch qrl (hostElement c) WatchFlagsIsEffect (scope_i c).

(** The machine after [useWatchQrl] has created its descriptor. *)
Definition registered (qrl : QRL) (c : component) (s : state) : state :=
  with_queue (queue s ++ [Job (RDeferred (length (derived s))) (inr VUndefined)])
    (with_derived (derived s ++ [DPending])
       (with_watch (λ _, watch_of qrl c) s)).

(** What a body may log while it runs. *)
Definition body_event (n : nat) (e : event) : Prop := is_tracked e ∨ e = EBodyEnd n.

Definition cleanup_log (fn : fnref) : list event :=
  match fn_throws fn with
  | Some err => [ELogError err; ECleanup fn]
  | None => [ECleanup fn]
  end.

(** The error the tracker raises on an object that is not trackable. *)
Definition not_a_proxy : error := AssertionError "Expected a Proxy object to track".

(** Promises only move forward: a settled promise stays as it is, and the
    callbacks parked on a pending one stay parked, in order, until it
    settles. *)
Definition evolves (c c' : cell) : Prop :=
  own c' = own c
  ∧ match st c with
    | Pending rs => ∀ rs', st c' = Pending rs' → ∃ extra, rs' = rs ++ extra
    | _ => st c' = st c
    end.

Definition grows (h h' : list cell) : Prop :=
  ∀ r c, h !! r = Some c → ∃ c', h' !! r = Some c' ∧ evolves c c'.

(** ** Runs that can no longer happen *)

Definition is_body_start (e : event) : bool :=
  match e with
  | EBodyStart _ => true
  | _ => false
  end.

(** How many times a body was started. *)
Definition starts (l : list event) : nat := count is_body_start l.

(** No callback of [runWatch] is queued, no body is in flight, and the
    handle has not been fulfilled: nothing is left that could fulfil it. *)
Definition blocked (s : state) : Prop :=
  tokens s = 0%nat ∧ ∃ r, Watch.running (watch s) = Some r ∧ unfulfilled (heap s) r.

(** ** Subscriptions of one run *)

(** The subscriptions a body leaves on top of [l]: each tracker call on a
    trackable object records one, and the first call on an object that is
    not trackable ends the body. *)
Fixpoint tracked (l : list sub) (body : list action) : list sub :=
  match body with
  | [] => l
  | ATrack obj prop :: rest =>
      match getProxyTarget obj with
      | Some target => tracked (add_sub (watch_sub target prop) l) rest
      | None => l
      end
  | AWrite :: rest => tracked l rest
  end.

(** A step of a body that the tracker does not refuse. *)
Definition trackable (a : action) : Prop :=
  match a with
  | ATrack obj _ => getProxyTarget obj ≠ None
  | AWrite => True
  end.

(** ** Handlers and the descriptors they capture *)

(** Every handler registered for resume or for visibility captures a
    descriptor that is among the watches of the element. *)
Definition handlers_resolve (c : component) : Prop :=
  ∀ h, h ∈ resumeQrls c ++ visibleQrls c →
       ∃ w, w ∈ el_watches c ∧ getWatchHandlerQrl w = h.

(** ** Mount registrars *)

Section Mount.

(** Modelled from the spec: [mountQrl.invoke()] of ../import/qrl-class, the
    one-shot invocation of a mount function.  It hands back a promise
    ("their returned asynchronous result is awaited as part of setup"), and
    a failure is a rejection of that promise. *)
Variable invoke : QRL → state → pid * state.

Definition useServerMountQrl (mountQrl : QRL) (c : component) : M component := λ s,
  if scope_watch c then (inr c, s)
  else
    if isServer c then
      let (p, s') := invoke mountQrl s in (inr (useWaitOn p (setWatch c)), s')
    else (inr (setWatch c), s).

Definition useClientMountQrl (mountQrl : QRL) (c : component) : M component := λ s,
  if scope_watch c then (inr c, s)
  else
    if negb (isServer c) then
      let (p, s') := invoke mountQrl s in (inr (useWaitOn p (setWatch c)), s')
    else (inr (setWatch c), s).

Definition useMountQrl (mountQrl : QRL) (c : component) : M component := λ s,
  if scope_watch c then (inr c, s)
  else
    let (p, s') := invoke mountQrl s in (inr (useWaitOn p (setWatch c)), s').

End Mount.

(** * Proofs *)

(** ** Bits of the flags *)

Module Int32Facts.

Lemma wrap_mod z : Int32.wrap z mod 2 ^ 32 = z mod 2 ^ 32.
Proof.
  unfold Int32.wrap. rewrite Zminus_mod_idemp_l. f_equal. lia.
Qed.

Lemma wrap_testbit z n : 0 ≤ n < 32 → Z.testbit (Int32.wrap z) n = Z.testbit z n.
Proof.
  intros Hn.
  rewrite <- (Z.mod_pow2_bits_low (Int32.wrap z) 32 n) by lia.
  rewrite wrap_mod. apply Z.mod_pow2_bits_low. lia.
Qed.

Lemma wrap_pow2 k : 0 ≤ k < 31 → Int32.wrap (2 ^ k) = 2 ^ k.
Proof.
  intros Hk. unfold Int32.wrap.
  assert (0 < 2 ^ k < 2 ^ 31) by (split; [lia | apply Z.pow_lt_mono_r; lia]).
  rewrite Z.mod_small; lia.
Qed.

Lemma and_testbit a b n :
  0 ≤ n < 32 → Z.testbit (Int32.and a b) n = Z.testbit a n && Z.testbit b n.
Proof.
  intros Hn. unfold Int32.and. rewrite Z.land_spec, !wrap_testbit; auto.
Qed.

Lemma or_testbit a b n :
  0 ≤ n < 32 → Z.testbit (Int32.or a b) n = Z.testbit a n || Z.testbit b n.
Proof.
  intros Hn. unfold Int32.or. rewrite Z.lor_spec, !wrap_testbit; auto.
Qed.

Lemma not_testbit a n : 0 ≤ n < 32 → Z.testbit (Int32.not a) n = negb (Z.testbit a n).
Proof.
  intros Hn. unfold Int32.not. rewrite Z.lnot_spec, wrap_testbit; auto. lia.
Qed.

(** Testing one flag with [&] reads one bit. *)
Lemma truthy_and_pow2 a k :
  0 ≤ k < 31 → Int32.truthy (Int32.and a (2 ^ k)) = Z.testbit a k.
Proof.
  intros Hk. unfold Int32.truthy, Int32.and. rewrite (wrap_pow2 k) by lia.
  rewrite <- (wrap_testbit a k) by lia.
  destruct (Z.testbit (Int32.wrap a) k) eqn:Hb.
  - apply negb_true_iff, Z.eqb_neq. intros H0.
    assert (Z.testbit (Z.land (Int32.wrap a) (2 ^ k)) k = true) as Hk1.
    { rewrite Z.land_spec, Hb, Z.pow2_bits_true; auto. lia. }
    rewrite H0, Z.bits_0 in Hk1. discriminate.
  - apply negb_false_iff, Z.eqb_eq. apply Z.bits_inj'. intros n Hn.
    rewrite Z.land_spec, Z.bits_0.
    destruct (decide (n = k)) as [->|Hne].
    + rewrite Hb. reflexivity.
    + rewrite (Z.pow2_bits_false k n) by lia. apply andb_false_r.
Qed.

End Int32Facts.

Lemma is_dirty_bit w : is_dirty w = Z.testbit (Watch.f w) 2.
Proof. apply (Int32Facts.truthy_and_pow2 _ 2). lia. Qed.

Lemma is_cleanup_bit w : is_cleanup w = Z.testbit (Watch.f w) 3.
Proof. apply (Int32Facts.truthy_and_pow2 _ 3). lia. Qed.

(** ** The flags after one of them is cleared *)

Lemma clear_flag_bit (z : Z) (k n : Z) :
  0 ≤ k < 31 → 0 ≤ n < 32 →
  Z.testbit (Int32.and z (Int32.not (2 ^ k))) n = Z.testbit z n && negb (k =? n).
Proof.
  intros Hk Hn.
  rewrite Int32Facts.and_testbit, Int32Facts.not_testbit by lia.
  rewrite Z.pow2_bits_eqb by lia. reflexivity.
Qed.

Lemma set_flag_bit (z : Z) (k n : Z) :
  0 ≤ k < 31 → 0 ≤ n < 32 →
  Z.testbit (Int32.or z (2 ^ k)) n = Z.testbit z n || (k =? n).
Proof.
  intros Hk Hn. rewrite Int32Facts.or_testbit by lia.
  rewrite Z.pow2_bits_eqb by lia. reflexivity.
Qed.

Lemma is_dirty_set_f z w : is_dirty (set_f z w) = Z.testbit z 2.
Proof. apply is_dirty_bit. Qed.

Lemma is_dirty_markDirty s : is_dirty (watch (exec markDirty s)) = true.
Proof.
  cbn. rewrite is_dirty_set_f.
  change WatchFlagsIsDirty with (2 ^ 2). rewrite set_flag_bit by lia.
  apply orb_true_r.
Qed.

(** ** [cleanupWatch] *)

Lemma cleanupWatch_at_none depth s :
  Watch.destroy (watch s) = None → cleanupWatch_at depth s = (inr tt, s).
Proof.
  intros H. destruct depth; cbn [cleanupWatch_at]; unfold mbind, M_bind, get;
    rewrite H; reflexivity.
Qed.

(** The call of the cleanup in a state whose slot is empty: a call back into
    [cleanupWatch] finds nothing to do. *)
Lemma call_cleanup_cleared depth fn s :
  Watch.destroy (watch s) = None →
  call_cleanup (cleanupWatch_at depth) fn s
  = (match fn_throws fn with Some err => inl err | None => inr tt end,
     with_log (ECleanup fn :: log s) s).
Proof.
  intros H. unfold call_cleanup, mbind, M_bind, emit, modify.
  destruct (fn_reenters fn).
  - rewrite cleanupWatch_at_none by exact H. destruct (fn_throws fn); reflexivity.
  - cbn [mret M_ret]. destruct (fn_throws fn); reflexivity.
Qed.

Lemma cleanupWatch_at_some depth s fn :
  Watch.destroy (watch s) = Some fn →
  cleanupWatch_at (S depth) s = (inr tt, cleaned fn s).
Proof.
  intros H. cbn [cleanupWatch_at]. unfold mbind at 1, M_bind at 1, get. rewrite H.
  unfold mbind at 1, M_bind at 1, modify, try_catch.
  rewrite call_cleanup_cleared by reflexivity.
  unfold cleaned. destruct (fn_throws fn); reflexivity.
Qed.

Lemma cleanupWatch_none s :
  Watch.destroy (watch s) = None → cleanupWatch s = (inr tt, s).
Proof. apply cleanupWatch_at_none. Qed.

Lemma cleanupWatch_some s fn :
  Watch.destroy (watch s) = Some fn → cleanupWatch s = (inr tt, cleaned fn s).
Proof. apply cleanupWatch_at_some. Qed.

Lemma cleanupWatch_ok s : fst (cleanupWatch s) = inr tt.
Proof.
  destruct (Watch.destroy (watch s)) as [fn|] eqn:H.
  - rewrite (cleanupWatch_some _ fn H). reflexivity.
  - rewrite (cleanupWatch_none _ H). reflexivity.
Qed.

Lemma cleanupWatch_slot s : Watch.destroy (watch (exec cleanupWatch s)) = None.
Proof.
  unfold exec. destruct (Watch.destroy (watch s)) as [fn|] eqn:H.
  - rewrite (cleanupWatch_some _ fn H). reflexivity.
  - rewrite (cleanupWatch_none _ H). exact H.
Qed.


(** More room on the call stack changes nothing: the one nested call the
    cleanup can make finds the slot empty. *)
Lemma cleanupWatch_at_room depth s : cleanupWatch_at (S depth) s = cleanupWatch s.
Proof.
  destruct (Watch.destroy (watch s)) as [fn|] eqn:H.
  - rewrite (cleanupWatch_at_some _ _ fn H), (cleanupWatch_some _ fn H). reflexivity.
  - rewrite (cleanupWatch_at_none _ _ H), (cleanupWatch_none _ H). reflexivity.
Qed.

(** C10: [cleanupWatch] clears the slot before it calls the cleanup.  The
    function runs in a state whose slot is empty, so a call of
    [cleanupWatch] from inside the function finds nothing to do and the
    function is called exactly once, whether it throws or not, whether it
    calls back or not, and whatever room the call stack has.  The slot is
    empty afterwards, and a second call right after the first calls nothing
    and changes nothing. *)
Theorem cleanupWatch_idempotent (s : state) :
  Watch.destroy (watch (exec cleanupWatch s)) = None
  ∧ cleanupWatch (exec cleanupWatch s) = (inr tt, exec cleanupWatch s)
  ∧ exec cleanupWatch s
    = match Watch.destroy (watch s) with Some fn => cleaned fn s | None => s end
  ∧ (∀ depth, cleanupWatch_at (S depth) s = cleanupWatch s)
  ∧ (∀ fn, Watch.destroy (watch s) = Some fn →
       let cleared := with_watch (set_destroy None) s in
       cleanupWatch s
       = try_catch (call_cleanup (cleanupWatch_at 0) fn) (λ err, logError err) cleared
       ∧ ∀ depth,
           call_cleanup (cleanupWatch_at depth) fn cleared
           = (match fn_throws fn with Some err => inl err | None => inr tt end,
              with_log (ECleanup fn :: log s) cleared)).
Proof.
  split; [apply cleanupWatch_slot|]. split; [|split; [|split]].
  - apply cleanupWatch_none, cleanupWatch_slot.
  - unfold exec. destruct (Watch.destroy (watch s)) as [fn|] eqn:H.
    + rewrite (cleanupWatch_some _ fn H). reflexivity.
    + rewrite (cleanupWatch_none _ H). reflexivity.
  - intros depth. apply cleanupWatch_at_room.
  - intros fn H cleared. split.
    + unfold cleanupWatch. cbn [cleanupWatch_at].
      unfold mbind at 1, M_bind at 1, get. rewrite H. reflexivity.
    + intros depth. exact (call_cleanup_cleared depth fn cleared eq_refl).
Qed.

Lemma cleanupWatch_idempotent_witness :
  let fn := {| fn_id := 5; fn_throws := Some (Thrown 1); fn_reenters := true |} in
  let q : QRL := λ _, {| acts := []; fin := Return (VFunction fn) |} in
  let s := run_inputs [InRun] (fresh (mkWatch q 0 6 0)) in
  Watch.destroy (watch s) = Some fn
  ∧ log (exec cleanupWatch s) = [ELogError (Thrown 1); ECleanup fn] ++ log s
  ∧ log (exec (cleanupWatch_at 7) s) = [ELogError (Thrown 1); ECleanup fn] ++ log s.
Proof.
  intros fn q s.
  destruct (cleanupWatch_idempotent s) as (_ & _ & H3 & H4 & _).
  split; [reflexivity|]. unfold exec at 2. rewrite (H4 6%nat). fold (exec cleanupWatch s).
  rewrite H3. split; reflexivity.
Defined.

Lemma runWatch_clean (s : state) :
  is_dirty (watch s) = false →
  runWatch s
  = (inr (length (heap s)),
     with_heap (heap s ++ [{| own := ORun; st := Fulfilled VWatch |}])
       (with_log (ELogDebug "Watch is not dirty, skipping run" :: log s) s)).
Proof.
  intros Hd. unfold is_dirty in Hd.
  unfold runWatch, mbind, M_bind, get. rewrite Hd. reflexivity.
Qed.

(** C3: on a descriptor that is not dirty [runWatch] hands back a promise
    already fulfilled with the descriptor; it calls neither the cleanup nor
    the body (the log gains the debug line only, no invocation is counted)
    and leaves descriptor, subscriptions and microtasks as they were. *)
Theorem runWatch_not_dirty_noop (s : state) :
  is_dirty (watch s) = false →
  fst (runWatch s) = inr (length (heap s))
  ∧ heap (exec runWatch s) = heap s ++ [{| own := ORun; st := Fulfilled VWatch |}]
  ∧ heap (exec runWatch s) !! length (heap s)
    = Some {| own := ORun; st := Fulfilled VWatch |}
  ∧ log (exec runWatch s) = ELogDebug "Watch is not dirty, skipping run" :: log s
  ∧ watch (exec runWatch s) = watch s
  ∧ subs (exec runWatch s) = subs s
  ∧ queue (exec runWatch s) = queue s
  ∧ derived (exec runWatch s) = derived s
  ∧ calls (exec runWatch s) = calls s.
Proof.
  intros Hd. unfold exec. rewrite (runWatch_clean s Hd). cbn.
  repeat split. apply list_lookup_middle. reflexivity.
Qed.

Lemma runWatch_not_dirty_noop_witness :
  let s := fresh (mkWatch (λ _, {| acts := []; fin := Return VUndefined |}) 0 2 0) in
  watch (exec runWatch s) = watch s
  ∧ log (exec runWatch s) = [ELogDebug "Watch is not dirty, skipping run"].
Proof.
  intros s.
  destruct (runWatch_not_dirty_noop s eq_refl) as (_ & _ & _ & Hl & Hw & _).
  split; [exact Hw | exact Hl].
Defined.

(** ** Counting *)

Section Count.
Context {A : Type} (P : A → bool).

Lemma count_app (l k : list A) : count P (l ++ k) = (count P l + count P k)%nat.
Proof. unfold count. rewrite List.filter_app, length_app. reflexivity. Qed.

Lemma count_cons (x : A) (l : list A) :
  count P (x :: l) = ((if P x then 1 else 0) + count P l)%nat.
Proof. unfold count. cbn. destruct (P x); reflexivity. Qed.

Lemma count_snoc (l : list A) (x : A) :
  count P (l ++ [x]) = (count P l + (if P x then 1 else 0))%nat.
Proof. rewrite count_app, count_cons. unfold count. cbn. lia. Qed.

Lemma count_insert (l : list A) (i : nat) (x y : A) :
  l !! i = Some y →
  (count P (<[i := x]> l) + (if P y then 1 else 0)
   = count P l + (if P x then 1 else 0))%nat.
Proof.
  revert i. induction l as [|a l IH]; intros [|i] H; try discriminate.
  - injection H as ->. cbn [list_insert insert]. rewrite !count_cons. lia.
  - cbn in H. specialize (IH i H).
    change (<[S i := x]> (a :: l)) with (a :: <[i := x]> l).
    rewrite !count_cons. lia.
Qed.

Lemma count_lookup (l : list A) (i : nat) (y : A) :
  l !! i = Some y → P y = true → (1 ≤ count P l)%nat.
Proof.
  revert i. induction l as [|a l IH]; intros [|i] H Hy; try discriminate.
  - injection H as ->. rewrite count_cons, Hy. lia.
  - cbn in H. specialize (IH i H Hy). rewrite count_cons. lia.
Qed.
End Count.

Lemma count_jobs_fulfilled (v : jsval) (rs : list reaction) :
  count run_job_b (map (λ k, Job k (inr v)) rs) = count run_reaction rs.
Proof.
  induction rs as [|r rs IH]; [reflexivity|].
  cbn [map]. rewrite !count_cons, IH. reflexivity.
Qed.

Lemma count_jobs_rejected (e : error) (rs : list reaction) :
  count run_job_b (map (λ k, Job k (inl e)) rs) = 0%nat.
Proof.
  induction rs as [|r rs IH]; [reflexivity|].
  cbn [map]. rewrite count_cons, IH. reflexivity.
Qed.

Lemma count_jobs_settled (r : error + jsval) (rs : list reaction) :
  (count run_job_b (map (λ k, Job k r) rs) ≤ count run_reaction rs)%nat.
Proof.
  destruct r; [rewrite count_jobs_rejected; lia | rewrite count_jobs_fulfilled; lia].
Qed.

(** ** The log and [flight] *)

Lemma flight_neutral_app (evs l : list event) :
  Forall flight_neutral evs → flight (evs ++ l) = flight l.
Proof.
  induction 1 as [|e evs He _ IH]; [reflexivity|].
  cbn. rewrite IH. destruct (flight l) as [open|]; [|reflexivity].
  destruct e; cbn in He; try contradiction; reflexivity.
Qed.

Lemma tracked_neutral (evs : list event) : Forall is_tracked evs → Forall flight_neutral evs.
Proof. intros H. eapply Forall_impl; [exact H|]. intros e [v ->]. exact I. Qed.

(** ** What the synchronous part of a body touches *)

Lemma track_effect obj prop s :
  track obj prop s
  = match getProxyTarget obj with
    | Some target =>
        (inr (match prop with
              | Some p => if truthy_key p then get_prop obj p else obj
              | None => obj
              end),
         with_subs (add_sub (watch_sub target prop) (subs s)) s)
    | None => (inl (AssertionError "Expected a Proxy object to track"), s)
    end.
Proof.
  unfold track. destruct (getProxyTarget obj) as [t|]; cbn; [|reflexivity].
  destruct prop as [p|]; [destruct (truthy_key p)|]; reflexivity.
Qed.

Lemma run_actions_frame t l s :
  heap (exec (run_actions t l) s) = heap s
  ∧ derived (exec (run_actions t l) s) = derived s
  ∧ queue (exec (run_actions t l) s) = queue s
  ∧ calls (exec (run_actions t l) s) = calls s
  ∧ Watch.running (watch (exec (run_actions t l) s)) = Watch.running (watch s)
  ∧ Watch.destroy (watch (exec (run_actions t l) s)) = Watch.destroy (watch s)
  ∧ Watch.qrl (watch (exec (run_actions t l) s)) = Watch.qrl (watch s)
  ∧ (is_dirty (watch s) = true → is_dirty (watch (exec (run_actions t l) s)) = true)
  ∧ ∃ evs, log (exec (run_actions t l) s) = evs ++ log s ∧ Forall is_tracked evs.
Proof.
  revert s. induction l as [|a l IH]; intros s.
  - cbn. repeat split; auto. exists []. split; [reflexivity | constructor].
  - destruct a as [obj prop|].
    + cbn [run_actions]. unfold exec, mbind, M_bind.
      destruct t.
      * rewrite track_effect. destruct (getProxyTarget obj) as [tg|].
        -- cbn. match goal with |- context [run_actions true l ?s1] =>
             destruct (IH s1) as (H1 & H2 & H3 & H4 & H5 & H6 & H7 & H8 & evs & H9 & H10) end.
           unfold exec in *. cbn in *.
           repeat split; auto. eexists (evs ++ [_]). split.
           ++ rewrite H9, <- app_assoc. reflexivity.
           ++ apply Forall_app. split; [exact H10|]. constructor; [eexists; reflexivity | constructor].
        -- cbn. repeat split; auto. exists []. split; [reflexivity | constructor].
      * cbn. repeat split; auto. exists []. split; [reflexivity | constructor].
    + cbn [run_actions]. unfold exec, mbind, M_bind. cbn.
      match goal with |- context [run_actions t l ?s1] =>
        destruct (IH s1) as (H1 & H2 & H3 & H4 & H5 & H6 & H7 & H8 & evs & H9 & H10) end.
      unfold exec in *. cbn in *.
      repeat split; auto.
      * intros _. apply H8. apply (is_dirty_markDirty s).
      * exists evs. split; auto.
Qed.

(** ** The body, step by step *)

Lemma invokeFn_clearSub s :
  invokeFn clearSub s
  = let n := calls s in
    let sc := Watch.qrl (watch s) n in
    match run_actions true (acts sc) (body_entry s) with
    | (inl e, s1) => (inl e, ended n s1)
    | (inr _, s1) =>
        match fin sc with
        | Return v => (inr (Plain v), ended n s1)
        | Throw e => (inl e, ended n s1)
        | Await => (inr (Promise (length (heap s1))), suspended n [] s1)
        end
    end.
Proof.
  unfold invokeFn, clearSub, mbind, M_bind. cbn.
  change (with_log _ (with_calls _ (with_subs _ (with_log _ s)))) with (body_entry s).
  unfold try_catch.
  destruct (run_actions true (acts (Watch.qrl (watch s) (calls s))) (body_entry s))
    as [[e|[]] s1]; cbn; [reflexivity|].
  destruct (fin (Watch.qrl (watch s) (calls s))); reflexivity.
Qed.

Lemma subscribe_fresh n k s :
  subscribe (length (heap s)) k (suspended n [] s) = (inr tt, suspended n [k] s).
Proof.
  unfold subscribe, suspended. cbn.
  rewrite list_lookup_middle by reflexivity. cbn.
  rewrite insert_app_r_alt by lia. rewrite Nat.sub_diag. reflexivity.
Qed.

(** The three ways the callback of [runWatch] can go, from the state [s1]
    in which the synchronous part of the body has run. *)
Lemma watchRun_cases p s :
  let n := calls s in
  let sc := Watch.qrl (watch s) n in
  let s1 := exec (run_actions true (acts sc)) (body_entry (exec cleanupWatch s)) in
  (∃ e, watchRun p s = (inl e, ended n s1))
  ∨ (∃ v, fin sc = Return v ∧ watchRun p s = capture p v (ended n s1))
  ∨ (fin sc = Await ∧ watchRun p s = (inr tt, suspended n [RCapture p] s1)).
Proof.
  intros n sc s1. unfold watchRun, mbind, M_bind.
  pose proof (cleanupWatch_ok s) as Hok.
  assert (calls (exec cleanupWatch s) = calls s
          ∧ Watch.qrl (watch (exec cleanupWatch s)) = Watch.qrl (watch s)) as [Hc Hq].
  { unfold exec. destruct (Watch.destroy (watch s)) as [fn|] eqn:Hd.
    - rewrite (cleanupWatch_some _ fn Hd). split; reflexivity.
    - rewrite (cleanupWatch_none _ Hd). split; reflexivity. }
  unfold exec in *. destruct (cleanupWatch s) as [r0 s0]. cbn in Hok, Hc, Hq. subst r0.
  rewrite invokeFn_clearSub. cbn zeta. rewrite Hc, Hq. fold n. fold sc.
  subst s1. cbn [snd].
  destruct (run_actions true (acts sc) (body_entry s0)) as [[e|[]] s1] eqn:Hr; cbn [snd].
  - left. exists e. reflexivity.
  - destruct (fin sc) as [v|e|] eqn:Hf.
    + right. left. exists v. split; reflexivity.
    + left. exists e. reflexivity.
    + right. right. split; [reflexivity|].
      cbn [then_]. apply subscribe_fresh.
Qed.

(** ** Preservation of the invariant *)

Ltac state_simpl :=
  cbn [watch heap derived queue subs calls log with_watch with_heap with_derived
       with_queue with_subs with_calls with_log ended suspended fst snd] in *.

Lemma inv_at_frame ro s s' :
  heap s' = heap s → queue s' = queue s → flight (log s') = flight (log s) →
  inv_at ro s → inv_at ro s'.
Proof.
  intros Hh Hq Hl [Hc Hr Hf Ht Hb].
  split; unfold tokens in *; rewrite ?Hh, ?Hq, ?Hl; auto.
Qed.

Lemma tokens_zero s :
  tokens s = 0%nat → count run_job_b (queue s) = 0%nat ∧ count body_pending (heap s) = 0%nat.
Proof. unfold tokens. lia. Qed.

Lemma inv_at_closed ro s :
  inv_at ro s → count body_pending (heap s) = 0%nat → flight (log s) = Some false.
Proof.
  intros [_ _ (open & Hf & Hn) _ _] H0. rewrite H0 in Hn. destruct open; [discriminate | exact Hf].
Qed.

Lemma parked_settled o r : parked {| own := o; st := settled_as r |} = 0%nat.
Proof. destruct r; reflexivity. Qed.

Lemma body_pending_settled o r : body_pending {| own := o; st := settled_as r |} = false.
Proof. destruct o, r; reflexivity. Qed.

Lemma unfulfilled_insert_ne h r p c :
  p ≠ r → unfulfilled h r → unfulfilled (<[p := c]> h) r.
Proof.
  intros Hne (c0 & Hl & Hn). exists c0. split; [|exact Hn].
  rewrite list_lookup_insert_ne; auto.
Qed.

Lemma unfulfilled_app h k r : unfulfilled h r → unfulfilled (h ++ k) r.
Proof.
  intros (c0 & Hl & Hn). exists c0. split; [|exact Hn].
  rewrite lookup_app_l; [exact Hl|]. eapply lookup_lt_Some, Hl.
Qed.

(** Settling a promise while nothing else is due releases at most one
    callback of [runWatch], and never from the current handle. *)
Lemma settle_inv ro p r s :
  inv_at ro s → tokens s = 0%nat → (∃ r0, ro = Some r0 ∧ unfulfilled (heap s) r0) →
  inv_at ro (exec (settle p r) s).
Proof.
  intros Hinv H0 (r0 & Hro & Hun).
  destruct (tokens_zero _ H0) as [Hq0 Hb0].
  pose proof (inv_at_closed _ _ Hinv Hb0) as Hcl.
  destruct Hinv as [Hc Hr Hf Ht Hb].
  unfold exec, settle.
  destruct (heap s !! p) as [[o [rs|v|e]]|] eqn:Hp; cbn [snd];
    try (split; assumption).
  assert (body_pending {| own := o; st := Pending rs |} = false) as Hnb.
  { destruct (body_pending _) eqn:E; [|reflexivity].
    pose proof (count_lookup _ _ _ _ Hp E). lia. }
  assert (parked {| own := o; st := Pending rs |} ≤ 1)%nat as Hpk.
  { eapply Forall_lookup_1 in Hc; [exact Hc | exact Hp]. }
  cbn in Hpk.
  assert (count body_pending (<[p := {| own := o; st := settled_as r |}]> (heap s)) = 0%nat)
    as Hb1.
  { pose proof (count_insert body_pending _ _ {| own := o; st := settled_as r |} _ Hp) as Hi.
    rewrite Hnb, body_pending_settled in Hi. cbv iota in Hi. lia. }
  pose proof (count_jobs_settled r rs) as Hjobs.
  split; unfold tokens; state_simpl.
  - apply Forall_insert; [exact Hc|]. rewrite parked_settled. lia.
  - intros r1 Hr1. destruct (decide (p = r1)) as [->|Hne].
    + eexists. split; [apply list_lookup_insert_eq; eapply lookup_lt_Some, Hp|].
      apply parked_settled.
    + rewrite list_lookup_insert_ne by exact Hne. apply Hr, Hr1.
  - exists false. split; [exact Hcl | exact Hb1].
  - rewrite count_app, Hb1, Hq0. lia.
  - rewrite count_app, Hb1, Hq0.
    destruct (count run_job_b (map (λ k, Job k r) rs)) as [|m] eqn:Hm; [left; lia|].
    right. exists r0. split; [exact Hro|].
    apply unfulfilled_insert_ne; [|exact Hun].
    intros ->. destruct (Hr _ Hro) as (c & Hl & Hpz).
    rewrite Hp in Hl. injection Hl as <-. cbn in Hpz. lia.
Qed.

Lemma settle_ok p r s : fst (settle p r s) = inr tt.
Proof. unfold settle. destruct (heap s !! p) as [[o [rs|v|e]]|]; reflexivity. Qed.

Lemma subscribe_ok p k s : fst (subscribe p k s) = inr tt.
Proof. unfold subscribe. destruct (heap s !! p) as [[o [rs|v|e]]|]; reflexivity. Qed.

Lemma capture_ok p v s : fst (capture p v s) = inr tt.
Proof.
  unfold capture, mbind, M_bind. destruct (isFunction v); cbn; apply settle_ok.
Qed.

Lemma settle_watch p r s : watch (exec (settle p r) s) = watch s.
Proof. unfold exec, settle. destruct (heap s !! p) as [[o [rs|v|e]]|]; reflexivity. Qed.

Lemma capture_running p v s :
  Watch.running (watch (exec (capture p v) s)) = Watch.running (watch s).
Proof.
  unfold exec, capture, resolve, mbind, M_bind.
  destruct (isFunction v); cbn [modify mret M_ret];
    match goal with |- context [settle p ?r ?x] =>
      change (snd (settle p r x)) with (exec (settle p r) x) end;
    rewrite settle_watch; reflexivity.
Qed.

Lemma cleanupWatch_frame s :
  heap (exec cleanupWatch s) = heap s
  ∧ derived (exec cleanupWatch s) = derived s
  ∧ queue (exec cleanupWatch s) = queue s
  ∧ subs (exec cleanupWatch s) = subs s
  ∧ calls (exec cleanupWatch s) = calls s
  ∧ Watch.running (watch (exec cleanupWatch s)) = Watch.running (watch s)
  ∧ Watch.qrl (watch (exec cleanupWatch s)) = Watch.qrl (watch s)
  ∧ Watch.f (watch (exec cleanupWatch s)) = Watch.f (watch s)
  ∧ flight (log (exec cleanupWatch s)) = flight (log s).
Proof.
  unfold exec. destruct (Watch.destroy (watch s)) as [fn|] eqn:Hd.
  - rewrite (cleanupWatch_some _ fn Hd). unfold cleaned. state_simpl.
    repeat split. apply flight_neutral_app.
    destruct (fn_throws fn); repeat constructor.
  - rewrite (cleanupWatch_none _ Hd). repeat split.
Qed.

(** The state in which the synchronous part of the body has run. *)
Lemma body_sync_frame l s :
  let s1 := exec (run_actions true l) (body_entry (exec cleanupWatch s)) in
  heap s1 = heap s ∧ queue s1 = queue s
  ∧ Watch.running (watch s1) = Watch.running (watch s)
  ∧ (flight (log s) = Some false →
     flight (log s1) = Some true ∧ flight (log (ended (calls s) s1)) = Some false).
Proof.
  intros s1.
  destruct (cleanupWatch_frame s) as (Hh & _ & Hq & _ & _ & Hr & _ & _ & Hl).
  destruct (run_actions_frame true l (body_entry (exec cleanupWatch s)))
    as (Hh1 & _ & Hq1 & _ & Hr1 & _ & _ & _ & evs & Hl1 & Hev).
  fold s1 in Hh1, Hq1, Hr1, Hl1.
  unfold body_entry in Hh1, Hq1, Hr1, Hl1. state_simpl.
  repeat split; try congruence.
  - rewrite Hl1, flight_neutral_app by (apply tracked_neutral, Hev).
    cbn. rewrite Hl, H. reflexivity.
  - unfold ended. state_simpl.
    rewrite Hl1. cbn [flight]. rewrite flight_neutral_app by (apply tracked_neutral, Hev).
    cbn. rewrite Hl, H. reflexivity.
Qed.

Lemma capture_inv ro p v s :
  inv_at ro s → tokens s = 0%nat → (∃ r0, ro = Some r0 ∧ unfulfilled (heap s) r0) →
  inv_at ro (exec (capture p v) s).
Proof.
  intros Hinv H0 Hbusy. unfold exec, capture, mbind, M_bind.
  destruct (isFunction v) as [fn|]; cbn [modify mret M_ret].
  - apply settle_inv; [eapply inv_at_frame; [..|exact Hinv]; reflexivity | exact H0 | exact Hbusy].
  - apply settle_inv; assumption.
Qed.

Lemma watchRun_inv ro p s :
  inv_at ro s → tokens s = 0%nat → (∃ r0, ro = Some r0 ∧ unfulfilled (heap s) r0) →
  inv_at ro (exec (watchRun p) s)
  ∧ Watch.running (watch (exec (watchRun p) s)) = Watch.running (watch s)
  ∧ (∀ e, fst (watchRun p s) = inl e →
       tokens (exec (watchRun p) s) = 0%nat ∧ heap (exec (watchRun p) s) = heap s).
Proof.
  intros Hinv H0 (r0 & Hro & Hun).
  destruct (tokens_zero _ H0) as [Hq0 Hb0].
  pose proof (inv_at_closed _ _ Hinv Hb0) as Hcl.
  destruct (body_sync_frame (acts (Watch.qrl (watch s) (calls s))) s)
    as (Hh & Hq & Hr & Hfl).
  destruct (Hfl Hcl) as [Hopen Hend]. clear Hfl.
  destruct (watchRun_cases p s) as [(e & E)|[(v & Hfin & E)|(Hfin & E)]];
    cbn zeta in E; unfold exec at 1 2 3 4; rewrite E.
  - (* the body threw *)
    set (s1 := exec _ _) in *. cbn [fst snd].
    assert (inv_at ro (ended (calls s) s1)) as Hi.
    { eapply inv_at_frame; [..|exact Hinv]; unfold ended; state_simpl; congruence. }
    split; [exact Hi|]. split; [exact Hr|].
    intros _ _. unfold tokens, ended. state_simpl. rewrite Hh, Hq. split; [exact H0|reflexivity].
  - (* the body handed back a plain value *)
    set (s1 := exec _ _) in *.
    assert (inv_at ro (ended (calls s) s1)) as Hi.
    { eapply inv_at_frame; [..|exact Hinv]; unfold ended; state_simpl; congruence. }
    split; [|split].
    + apply capture_inv; [exact Hi | |].
      * unfold tokens, ended. state_simpl. rewrite Hh, Hq. exact H0.
      * exists r0. split; [exact Hro|]. unfold ended. state_simpl. rewrite Hh. exact Hun.
    + pose proof (capture_running p v (ended (calls s) s1)) as Hcr.
      unfold exec in Hcr. rewrite Hcr. exact Hr.
    + intros e He. pose proof (capture_ok p v (ended (calls s) s1)) as Hok.
      rewrite He in Hok. discriminate.
  - (* the body handed back a promise *)
    set (s1 := exec _ _) in *. cbn [fst snd].
    split; [|split; [exact Hr | intros e He; discriminate]].
    destruct Hinv as [Hc Hhd Hf Ht Hb].
    split; unfold tokens, suspended; state_simpl; rewrite ?Hh, ?Hq.
    + apply Forall_app. split; [exact Hc|]. repeat constructor.
    + intros r1 Hr1. destruct (Hhd _ Hr1) as (c & Hl & Hp). exists c. split; [|exact Hp].
      rewrite lookup_app_l; [exact Hl|]. eapply lookup_lt_Some, Hl.
    + exists true. split; [exact Hopen|]. rewrite count_snoc, Hb0. reflexivity.
    + rewrite count_snoc, Hb0, Hq0. cbn. lia.
    + right. exists r0. split; [exact Hro|]. apply unfulfilled_app, Hun.
Qed.

(** [runWatch] on a dirty descriptor, by what [watch.running] holds. *)
Lemma runWatch_dirty s :
  is_dirty (watch s) = true →
  runWatch s
  = let p := length (heap s) in
    match Watch.running (watch s) with
    | None =>
        match watchRun p (started s) with
        | (inl e, s3) => (inr p, set_handle p (exec (reject p e) s3))
        | (inr _, s3) => (inr p, set_handle p s3)
        end
    | Some r => (inr p, set_handle p (exec (subscribe r (RRun p)) (started s)))
    end.
Proof.
  intros Hd. unfold is_dirty in Hd.
  unfold runWatch, mbind, M_bind, get. rewrite Hd. cbn [negb modify alloc].
  state_simpl. change (with_heap _ (with_watch _ s)) with (started s).
  unfold try_catch.
  change (Watch.running (watch (started s))) with (Watch.running (watch s)).
  destruct (Watch.running (watch s)) as [r|]; cbn [as_value_or_promise then_].
  - pose proof (subscribe_ok r (RRun (length (heap s))) (started s)) as Hok.
    unfold exec. destruct (subscribe r (RRun (length (heap s))) (started s)) as [x s3].
    cbn in Hok. subst x. reflexivity.
  - destruct (watchRun (length (heap s)) (started s)) as [[e|[]] s3].
    + pose proof (settle_ok (length (heap s)) (inl e) s3) as Hok.
      unfold exec, reject. destruct (settle (length (heap s)) (inl e) s3) as [x s4].
      cbn in Hok. subst x. reflexivity.
    + reflexivity.
Qed.

Lemma started_inv ro s :
  inv_at ro s → inv_at ro (started s) ∧ tokens (started s) = tokens s.
Proof.
  intros [Hc Hh Hf Ht Hb].
  assert (tokens (started s) = tokens s) as Htk.
  { unfold tokens, started. state_simpl. rewrite count_snoc. cbn. lia. }
  split; [|exact Htk].
  split; try rewrite Htk; auto; unfold started; state_simpl.
  - apply Forall_app. split; [exact Hc|]. repeat constructor.
  - intros r Hr. destruct (Hh _ Hr) as (c & Hl & Hp). exists c. split; [|exact Hp].
    rewrite lookup_app_l; [exact Hl|]. eapply lookup_lt_Some, Hl.
  - destruct Hf as (open & Hf1 & Hf2). exists open. split; [exact Hf1|].
    rewrite count_snoc, Hf2. cbn. lia.
  - destruct Hb as [Hb|(r & Hr & Hun)]; [left; exact Hb|].
    right. exists r. split; [exact Hr|]. apply unfulfilled_app, Hun.
Qed.

Lemma started_fresh s :
  heap (started s) !! length (heap s) = Some {| own := ORun; st := Pending [] |}.
Proof. unfold started. state_simpl. apply list_lookup_middle. reflexivity. Qed.

(** Taking a fresh pending promise as the handle while nothing is due. *)
Lemma inv_at_new_handle p s :
  inv_at None s → heap s !! p = Some {| own := ORun; st := Pending [] |} →
  inv_at (Some p) s.
Proof.
  intros [Hc Hh Hf Ht Hb] Hp. split; auto.
  - intros r [= <-]. eexists. split; [exact Hp | reflexivity].
  - destruct Hb as [Hb|(r & Hr & _)]; [left; exact Hb | discriminate].
Qed.

Lemma inv_at_None ro s : inv_at ro s → tokens s = 0%nat → inv_at None s.
Proof.
  intros [Hc Hh Hf Ht Hb] H0. split; auto. intros r Hr. discriminate.
Qed.

Lemma set_handle_inv p s : inv_at (Some p) s → inv (set_handle p s).
Proof. intros H. unfold inv. eapply inv_at_frame; [..|exact H]; reflexivity. Qed.

Lemma runWatch_inv s : inv s → inv (exec runWatch s).
Proof.
  intros Hinv. unfold inv in Hinv.
  destruct (is_dirty (watch s)) eqn:Hd.
  - (* dirty *)
    unfold exec. rewrite (runWatch_dirty _ Hd). cbn zeta.
    set (p := length (heap s)).
    destruct (started_inv _ _ Hinv) as [Hs Htk].
    pose proof (started_fresh s) as Hfresh. fold p in Hfresh.
    destruct (Watch.running (watch s)) as [r|] eqn:Hrun.
    + (* chained on the previous handle *)
      cbn [snd]. apply set_handle_inv.
      destruct (inv_handle _ _ Hs r eq_refl) as (c & Hl & Hpk).
      assert (r ≠ p) as Hne.
      { intros ->. rewrite Hfresh in Hl. 
        destruct (inv_handle _ _ Hinv p eq_refl) as (c' & Hl' & _).
        apply lookup_lt_Some in Hl'. unfold p in Hl'. lia. }
      destruct Hs as [Hc Hh Hf Ht Hb].
      unfold exec, subscribe. rewrite Hl.
      destruct c as [o [rs|v|e]]; cbn [snd enqueue modify]; cbn in Hpk.
      * split; unfold tokens in *; state_simpl.
        -- apply Forall_insert; [exact Hc|]. cbn. rewrite count_snoc, Hpk. cbn. lia.
        -- intros r1 [= <-]. eexists. rewrite list_lookup_insert_ne by exact Hne.
           split; [exact Hfresh | reflexivity].
        -- destruct Hf as (open & Hf1 & Hf2). exists open. split; [exact Hf1|].
           pose proof (count_insert body_pending _ _
                         {| own := o; st := Pending (rs ++ [RRun p]) |} _ Hl) as Hi.
           assert (body_pending {| own := o; st := Pending (rs ++ [RRun p]) |}
                   = body_pending {| own := o; st := Pending rs |}) as Hbp by (destruct o; reflexivity).
           rewrite Hbp in Hi. lia.
        -- pose proof (count_insert body_pending _ _
                         {| own := o; st := Pending (rs ++ [RRun p]) |} _ Hl) as Hi.
           assert (body_pending {| own := o; st := Pending (rs ++ [RRun p]) |}
                   = body_pending {| own := o; st := Pending rs |}) as Hbp by (destruct o; reflexivity).
           rewrite Hbp in Hi. lia.
        -- right. exists p. split; [reflexivity|]. eexists.
           rewrite list_lookup_insert_ne by exact Hne. split; [exact Hfresh|].
           intros v. discriminate.
      * (* the previous run has settled: the callback is queued *)
        assert (tokens (started s) = 0%nat) as H0.
        { destruct Hb as [Hb|(r1 & [= <-] & c1 & Hl1 & Hn1)]; [exact Hb|].
          rewrite Hl in Hl1. injection Hl1 as <-. exfalso. apply (Hn1 v). reflexivity. }
        unfold tokens in H0.
        split; unfold tokens in *; state_simpl; auto.
        -- intros r1 [= <-]. eexists. split; [exact Hfresh | reflexivity].
        -- rewrite count_snoc. cbn. lia.
        -- right. exists p. split; [reflexivity|]. eexists. split; [exact Hfresh|].
           intros v'. discriminate.
      * split; unfold tokens in *; state_simpl; auto.
        -- intros r1 [= <-]. eexists. split; [exact Hfresh | reflexivity].
        -- rewrite count_snoc. cbn. lia.
        -- right. exists p. split; [reflexivity|]. eexists. split; [exact Hfresh|].
           intros v'. discriminate.
    + (* first run: the callback runs inside the call *)
      assert (tokens s = 0%nat) as H0.
      { destruct (inv_busy _ _ Hinv) as [H0|(r & Hr & _)]; [exact H0 | discriminate]. }
      assert (inv_at (Some p) (started s)) as Hsp.
      { apply inv_at_new_handle; [|exact Hfresh].
        apply (inv_at_None _ _ Hs). lia. }
      assert (∃ r0, Some p = Some r0 ∧ unfulfilled (heap (started s)) r0) as Hbusy.
      { exists p. split; [reflexivity|]. eexists. split; [exact Hfresh|]. intros v. discriminate. }
      destruct (watchRun_inv _ p _ Hsp ltac:(lia) Hbusy) as (Hi & _ & Herr).
      unfold exec in Hi, Herr.
      destruct (watchRun p (started s)) as [[e|[]] s3]; cbn [fst snd] in *.
      * apply set_handle_inv. destruct (Herr e eq_refl) as [Ht0 Hheap].
        apply settle_inv; [exact Hi | exact Ht0 |].
        rewrite Hheap. exact Hbusy.
      * apply set_handle_inv. exact Hi.
  - (* not dirty *)
    unfold exec. rewrite (runWatch_clean s Hd). cbn [snd]. unfold inv. state_simpl.
    destruct Hinv as [Hc Hh Hf Ht Hb].
    split; unfold tokens in *; state_simpl.
    + apply Forall_app. split; [exact Hc|]. repeat constructor.
    + intros r Hr. destruct (Hh _ Hr) as (c & Hl & Hp). exists c. split; [|exact Hp].
      rewrite lookup_app_l; [exact Hl|]. eapply lookup_lt_Some, Hl.
    + destruct Hf as (open & Hf1 & Hf2). exists open. split.
      * cbn. rewrite Hf1. reflexivity.
      * rewrite count_snoc, Hf2. cbn. lia.
    + rewrite count_snoc. cbn. lia.
    + rewrite count_snoc. cbn. rewrite !Nat.add_0_r.
      destruct Hb as [Hb|(r & Hr & Hun)]; [left; exact Hb|].
      right. exists r. split; [exact Hr|]. apply unfulfilled_app, Hun.
Qed.

Lemma inv_frame s s' :
  heap s' = heap s → queue s' = queue s →
  Watch.running (watch s') = Watch.running (watch s) →
  flight (log s') = flight (log s) →
  inv s → inv s'.
Proof.
  intros Hh Hq Hr Hl H. unfold inv in *. rewrite Hr.
  eapply inv_at_frame; eauto.
Qed.

(** The environment settles the promise of the body in flight. *)
Lemma settle_body_inv ro b r s : inv_at ro s → inv_at ro (exec (settle_body b r) s).
Proof.
  intros Hinv. unfold exec, settle_body.
  destruct (heap s !! b) as [[[|n] [rs|v|e]]|] eqn:Hb; cbn [snd]; try exact Hinv.
  destruct Hinv as [Hc Hh Hf Ht Hbz].
  assert (1 ≤ count body_pending (heap s))%nat as Hpos
    by (eapply count_lookup; [exact Hb | reflexivity]).
  destruct Hf as (open & Hf1 & Hf2).
  destruct open; [|lia].
  unfold tokens in Ht, Hbz.
  assert (count run_job_b (queue s) = 0%nat) as Hq0 by lia.
  destruct Hbz as [Hbz|(r0 & Hro & Hun)]; [lia|].
  assert (parked {| own := OBody n; st := Pending rs |} ≤ 1)%nat as Hpk.
  { eapply Forall_lookup_1 in Hc; [exact Hc | exact Hb]. }
  cbn in Hpk.
  pose proof (count_jobs_settled r rs) as Hjobs.
  assert (count body_pending (<[b := {| own := OBody n; st := settled_as r |}]> (heap s))
          = 0%nat) as Hb1.
  { pose proof (count_insert body_pending _ _ {| own := OBody n; st := settled_as r |} _ Hb)
      as Hi.
    rewrite body_pending_settled in Hi. cbn [body_pending] in Hi. lia. }
  unfold mbind, M_bind, emit, modify, settle. state_simpl. rewrite Hb.
  split; unfold tokens; state_simpl.
  - apply Forall_insert; [exact Hc|]. rewrite parked_settled. lia.
  - intros r1 Hr1. destruct (decide (b = r1)) as [->|Hne].
    + eexists. split; [apply list_lookup_insert_eq; eapply lookup_lt_Some, Hb|].
      apply parked_settled.
    + rewrite list_lookup_insert_ne by exact Hne. apply Hh, Hr1.
  - exists false. split; [|exact Hb1]. cbn [flight]. rewrite Hf1. reflexivity.
  - rewrite count_app, Hb1, Hq0. lia.
  - rewrite count_app, Hb1, Hq0.
    destruct (count run_job_b (map (λ k, Job k r) rs)) as [|m] eqn:Hm; [left; lia|].
    right. exists r0. split; [exact Hro|].
    apply unfulfilled_insert_ne; [|exact Hun].
    intros ->. destruct (Hh _ Hro) as (c & Hl & Hpz).
    rewrite Hb in Hl. injection Hl as <-. cbn in Hpz. lia.
Qed.

(** Parking or queueing a callback that is not one of [runWatch]'s. *)
Lemma subscribe_other_inv ro p k s :
  run_reaction k = false → inv_at ro s → inv_at ro (exec (subscribe p k) s).
Proof.
  intros Hk [Hc Hh Hf Ht Hb]. unfold exec, subscribe.
  destruct (heap s !! p) as [[o [rs|v|e]]|] eqn:Hp; cbn [snd enqueue modify];
    try (split; assumption).
  - assert (body_pending {| own := o; st := Pending (rs ++ [k]) |}
            = body_pending {| own := o; st := Pending rs |}) as Hbp by (destruct o; reflexivity).
    assert (parked {| own := o; st := Pending (rs ++ [k]) |}
            = parked {| own := o; st := Pending rs |}) as Hpk.
    { cbn. rewrite count_snoc, Hk. lia. }
    pose proof (count_insert body_pending _ _
                  {| own := o; st := Pending (rs ++ [k]) |} _ Hp) as Hi.
    rewrite Hbp in Hi.
    split; unfold tokens in *; state_simpl.
    + apply Forall_insert; [exact Hc|]. rewrite Hpk.
      eapply Forall_lookup_1 in Hc; [exact Hc | exact Hp].
    + intros r1 Hr1. destruct (Hh _ Hr1) as (c & Hl & Hz).
      destruct (decide (p = r1)) as [->|Hne].
      * eexists. split; [apply list_lookup_insert_eq; eapply lookup_lt_Some, Hp|].
        rewrite Hpk. rewrite Hp in Hl. injection Hl as <-. exact Hz.
      * exists c. rewrite list_lookup_insert_ne by exact Hne. split; assumption.
    + destruct Hf as (open & Hf1 & Hf2). exists open. split; [exact Hf1 | lia].
    + lia.
    + destruct Hb as [Hb|(r0 & Hro & c & Hl & Hn)]; [left; lia|].
      right. exists r0. split; [exact Hro|].
      destruct (decide (p = r0)) as [->|Hne].
      * eexists. split; [apply list_lookup_insert_eq; eapply lookup_lt_Some, Hp|].
        intros v. discriminate.
      * exists c. rewrite list_lookup_insert_ne by exact Hne. split; assumption.
  - split; unfold tokens in *; state_simpl; auto; rewrite count_snoc; cbn [run_job_b];
      rewrite Hk, Nat.add_0_r; assumption.
  - split; unfold tokens in *; state_simpl; auto; rewrite count_snoc; cbn [run_job_b];
      rewrite Nat.add_0_r; assumption.
Qed.

Lemma run_actions_bare_frame l s :
  heap (exec (run_actions false l) s) = heap s
  ∧ queue (exec (run_actions false l) s) = queue s
  ∧ Watch.running (watch (exec (run_actions false l) s)) = Watch.running (watch s)
  ∧ Watch.destroy (watch (exec (run_actions false l) s)) = Watch.destroy (watch s)
  ∧ subs (exec (run_actions false l) s) = subs s
  ∧ log (exec (run_actions false l) s) = log s
  ∧ calls (exec (run_actions false l) s) = calls s
  ∧ (∀ n, 0 ≤ n < 32 → n ≠ 2 →
       Z.testbit (Watch.f (watch (exec (run_actions false l) s))) n
       = Z.testbit (Watch.f (watch s)) n).
Proof.
  revert s. induction l as [|a l IH]; intros s; [repeat split|].
  destruct a as [obj prop|]; [repeat split|].
  cbn [run_actions]. unfold exec, mbind, M_bind. cbn [markDirty modify].
  match goal with |- context [run_actions false l ?s1] =>
    destruct (IH s1) as (H1 & H2 & H3 & H4 & H5 & H6 & H6' & H7) end.
  unfold exec in *. state_simpl. repeat split; auto.
  intros n Hn Hne. rewrite H7 by auto. cbn [Watch.f set_f].
  change WatchFlagsIsDirty with (2 ^ 2). rewrite set_flag_bit by lia.
  destruct (Z.eqb_spec 2 n); [lia|]. apply orb_false_r.
Qed.

Lemma invokeBare_effect s :
  let n := calls s in
  let sc := Watch.qrl (watch s) n in
  let s0 := with_log (ETeardown n :: log s) (with_calls (S n) s) in
  invokeBare s
  = match run_actions false (acts sc) s0 with
    | (inl e, s1) => (inl e, s1)
    | (inr _, s1) => (match fin sc with Throw e => inl e | _ => inr tt end, s1)
    end.
Proof.
  unfold invokeBare, mbind, M_bind. cbn.
  destruct (run_actions false _ _) as [[e|[]] s1]; [reflexivity|].
  destruct (fin _); reflexivity.
Qed.

Lemma destroyWatch_inv s : inv s → inv (exec destroyWatch s).
Proof.
  apply inv_frame; unfold exec, destroyWatch, mbind, M_bind, get;
    (destruct (Int32.truthy _);
     [ cbn [modify]; rewrite invokeBare_effect; cbn zeta; state_simpl;
       match goal with |- context [run_actions false ?l ?s0] =>
         destruct (run_actions_bare_frame l s0) as (H1 & H2 & H3 & _ & _ & H6 & _ & _);
         unfold exec in *;
         destruct (run_actions false l s0) as [[e|[]] s1]
       end; state_simpl; rewrite ?H1, ?H2, ?H3, ?H6; try reflexivity
     | apply cleanupWatch_frame ]).
  all: cbn [flight]; destruct (flight (log s)); reflexivity.
Qed.

Lemma pop_inv ro j q s :
  queue s = j :: q → inv_at ro s →
  inv_at ro (with_queue q s)
  ∧ (run_job_b j = true →
     tokens (with_queue q s) = 0%nat ∧ ∃ r0, ro = Some r0 ∧ unfulfilled (heap s) r0).
Proof.
  intros Hq [Hc Hh Hf Ht Hb]. unfold tokens in *. rewrite Hq, count_cons in Ht, Hb.
  split.
  - split; unfold tokens; state_simpl; auto; [lia|].
    destruct Hb as [Hb|Hb]; [left; lia | right; exact Hb].
  - intros Hj. rewrite Hj in Ht, Hb. unfold tokens. state_simpl.
    split; [lia|]. destruct Hb as [Hb|Hb]; [lia | exact Hb].
Qed.

Lemma enqueue_other_inv ro j s :
  run_job_b j = false → inv_at ro s → inv_at ro (with_queue (queue s ++ [j]) s).
Proof.
  intros Hj [Hc Hh Hf Ht Hb].
  split; unfold tokens in *; state_simpl; auto; rewrite count_snoc, Hj, Nat.add_0_r; assumption.
Qed.

Lemma emit_neutral_inv e s : flight_neutral e → inv s → inv (exec (emit e) s).
Proof.
  intros He. apply inv_frame; try reflexivity.
  change (flight (e :: log s) = flight (log s)).
  apply (flight_neutral_app [e]). constructor; [exact He | constructor].
Qed.

Lemma settle_derived_inv d r s : inv s → inv (exec (settle_derived d r) s).
Proof.
  apply inv_frame; unfold exec, settle_derived, modify; cbn [snd];
    destruct (derived s !! d) as [[|]|]; reflexivity.
Qed.

Lemma tick_inv s : inv s → inv (exec tick s).
Proof.
  intros Hinv. unfold exec, tick.
  destruct (queue s) as [|j q] eqn:Hq; [exact Hinv|].
  unfold inv in Hinv.
  destruct (pop_inv _ _ _ _ Hq Hinv) as [H0 Hrun].
  set (s0 := with_queue q s) in *.
  assert (Watch.running (watch s0) = Watch.running (watch s)) as Hr0 by reflexivity.
  destruct j as [r [e|v]]; cbn [run_job].
  - (* a rejection reaches the callback *)
    destruct r as [p|p|d|d p|d];
      (apply (inv_frame s0); [..| unfold inv; rewrite Hr0; exact H0]);
      try reflexivity;
      first
        [ cbn [react_rejected emit modify snd]; state_simpl; cbn [flight];
          destruct (flight (log s0)); reflexivity
        | cbn [react_rejected settle_derived modify snd];
          match goal with |- context [derived _ !! ?x] =>
            destruct (derived s0 !! x) as [[|]|] end; reflexivity ].
  - unfold try_catch. destruct r as [p|p|d|d p|d]; cbn [react].
    + (* the callback of then(watch.running, ...) *)
      destruct (Hrun eq_refl) as [Ht0 Hbusy].
      destruct (watchRun_inv _ p s0 H0 Ht0 Hbusy) as (Hi & Hrn & _).
      unfold exec in Hi, Hrn.
      destruct (watchRun p s0) as [[e|[]] s1]; cbn [fst snd] in *.
      * apply (emit_neutral_inv (EUnhandled e)); [exact I|].
        unfold inv. rewrite Hrn. exact Hi.
      * unfold inv. rewrite Hrn. exact Hi.
    + (* the callback of then(watchFn(track), ...) *)
      destruct (Hrun eq_refl) as [Ht0 Hbusy].
      pose proof (capture_inv _ p v s0 H0 Ht0 Hbusy) as Hi.
      pose proof (capture_running p v s0) as Hrn.
      unfold exec in Hi, Hrn.
      destruct (capture p v s0) as [[e|[]] s1]; cbn [fst snd] in *.
      * apply (emit_neutral_inv (EUnhandled e)); [exact I|].
        unfold inv. rewrite Hrn. exact Hi.
      * unfold inv. rewrite Hrn. exact Hi.
    + (* the deferred first run of useWatchQrl *)
      assert (inv s0) as Hi0 by (unfold inv; rewrite Hr0; exact H0).
      pose proof (runWatch_inv _ Hi0) as Hi. unfold exec in Hi.
      unfold mbind, M_bind. destruct (runWatch s0) as [[e|p] s1]; cbn [fst snd] in *.
      * apply (settle_derived_inv d (inl e)), Hi.
      * cbn [enqueue modify snd]. apply enqueue_other_inv; [reflexivity | exact Hi].
    + pose proof (subscribe_other_inv _ p (RForward d) s0 eq_refl H0) as Hi.
      pose proof (subscribe_ok p (RForward d) s0) as Hok.
      assert (Watch.running (watch (exec (subscribe p (RForward d)) s0))
              = Watch.running (watch s)) as Hrn.
      { unfold exec, subscribe. destruct (heap s0 !! p) as [[o [rs|v'|e']]|]; reflexivity. }
      unfold exec in Hi, Hrn.
      destruct (subscribe p (RForward d) s0) as [[e|[]] s1]; cbn [fst snd] in *;
        [discriminate|]. unfold inv. rewrite Hrn. exact Hi.
    + assert (fst (settle_derived d (inr v) s0) = inr tt) as Hok by reflexivity.
      pose proof (settle_derived_inv d (inr v) s0) as Hi. unfold exec in Hi.
      destruct (settle_derived d (inr v) s0) as [[e|[]] s1]; cbn [fst snd] in *;
        [discriminate|]. apply Hi. unfold inv. rewrite Hr0. exact H0.
Qed.

Lemma step_inv i s : inv s → inv (exec (step i) s).
Proof.
  intros Hinv. destruct i as [| | |b r|]; cbn [step].
  - pose proof (runWatch_inv _ Hinv) as Hi. unfold exec, mbind, M_bind in *.
    destruct (runWatch s) as [[e|p] s1]; exact Hi.
  - eapply inv_frame; [..|exact Hinv]; reflexivity.
  - apply tick_inv, Hinv.
  - unfold inv in *.
    assert (Watch.running (watch (exec (settle_body b r) s)) = Watch.running (watch s)) as ->.
    { unfold exec, settle_body.
      destruct (heap s !! b) as [[[|n] [rs|v|e]]|] eqn:Hb; try reflexivity.
      unfold mbind, M_bind, emit, modify, settle. state_simpl. rewrite Hb. reflexivity. }
    apply settle_body_inv, Hinv.
  - apply destroyWatch_inv, Hinv.
Qed.

Lemma run_inputs_inv l s : inv s → inv (run_inputs l s).
Proof.
  revert s. induction l as [|i l IH]; intros s Hinv; [exact Hinv|].
  cbn. apply IH, step_inv, Hinv.
Qed.

Lemma fresh_inv w : Watch.running w = None → inv (fresh w).
Proof.
  intros Hr. unfold inv. cbn [fresh watch]. rewrite Hr.
  split; unfold tokens; cbn.
  - constructor.
  - intros r [=].
  - exists false. split; reflexivity.
  - unfold count. cbn. lia.
  - left. reflexivity.
Qed.

Lemma inv_flight_ok s : inv s → flight (log s) ≠ None.
Proof. intros [_ _ (open & Hf & _) _ _]. rewrite Hf. discriminate. Qed.

Lemma inv_single_flight s : inv s → single_flight (log s).
Proof. intros [_ _ (open & Hf & _) _ _]. exists open. exact Hf. Qed.

(** [runWatch] on a dirty descriptor whose handle is pending: nothing runs
    within the call, the callback is parked behind the handle. *)
Lemma runWatch_chained s r o rs :
  is_dirty (watch s) = true →
  Watch.running (watch s) = Some r →
  heap s !! r = Some {| own := o; st := Pending rs |} →
  fst (runWatch s) = inr (length (heap s))
  ∧ log (exec runWatch s) = log s
  ∧ calls (exec runWatch s) = calls s
  ∧ queue (exec runWatch s) = queue s
  ∧ subs (exec runWatch s) = subs s
  ∧ Watch.destroy (watch (exec runWatch s)) = Watch.destroy (watch s)
  ∧ heap (exec runWatch s) !! r
    = Some {| own := o; st := Pending (rs ++ [RRun (length (heap s))]) |}
  ∧ heap (exec runWatch s) !! length (heap s) = Some {| own := ORun; st := Pending [] |}
  ∧ Watch.running (watch (exec runWatch s)) = Some (length (heap s)).
Proof.
  intros Hd Hr Hp. unfold exec. rewrite (runWatch_dirty _ Hd). cbn zeta. rewrite Hr.
  cbn [fst snd]. unfold exec, subscribe.
  assert (r < length (heap s))%nat as Hlt by (eapply lookup_lt_Some, Hp).
  assert (heap (started s) !! r = Some {| own := o; st := Pending rs |}) as Hp'.
  { unfold started. state_simpl. rewrite lookup_app_l; assumption. }
  rewrite Hp'. cbn [snd]. unfold set_handle, started. state_simpl.
  repeat split.
  - apply list_lookup_insert_eq. rewrite length_app. lia.
  - rewrite list_lookup_insert_ne by lia. apply list_lookup_middle. reflexivity.
Qed.

(** ** Parked callbacks stay parked *)

Lemma evolves_refl c : evolves c c.
Proof.
  split; [reflexivity|]. destruct (st c) as [rs| |]; try reflexivity.
  intros rs' [= <-]. exists []. rewrite app_nil_r. reflexivity.
Qed.

Lemma evolves_trans c1 c2 c3 : evolves c1 c2 → evolves c2 c3 → evolves c1 c3.
Proof.
  intros [Ho1 H1] [Ho2 H2]. split; [congruence|].
  destruct (st c1) as [rs1| |].
  - intros rs3 H3. destruct (st c2) as [rs2| |].
    + destruct (H1 rs2 eq_refl) as (e1 & ->). destruct (H2 rs3 H3) as (e2 & ->).
      exists (e1 ++ e2). rewrite app_assoc. reflexivity.
    + rewrite H2 in H3. discriminate.
    + rewrite H2 in H3. discriminate.
  - rewrite H1 in H2. exact H2.
  - rewrite H1 in H2. exact H2.
Qed.

Lemma grows_refl h : grows h h.
Proof. intros r c Hr. exists c. split; [exact Hr | apply evolves_refl]. Qed.

Lemma grows_trans h1 h2 h3 : grows h1 h2 → grows h2 h3 → grows h1 h3.
Proof.
  intros H12 H23 r c Hr. destruct (H12 r c Hr) as (c2 & Hr2 & He2).
  destruct (H23 r c2 Hr2) as (c3 & Hr3 & He3).
  exists c3. split; [exact Hr3 | eapply evolves_trans; eassumption].
Qed.

Lemma grows_app h k : grows h (h ++ k).
Proof.
  intros r c Hr. exists c. split; [|apply evolves_refl].
  rewrite lookup_app_l; [exact Hr|]. eapply lookup_lt_Some, Hr.
Qed.

Lemma grows_insert h p c c' : h !! p = Some c → evolves c c' → grows h (<[p := c']> h).
Proof.
  intros Hp He r c0 Hr. destruct (decide (p = r)) as [->|Hne].
  - exists c'. rewrite list_lookup_insert_eq by (eapply lookup_lt_Some, Hp).
    rewrite Hp in Hr. injection Hr as <-. split; [reflexivity | exact He].
  - exists c0. rewrite list_lookup_insert_ne by exact Hne.
    split; [exact Hr | apply evolves_refl].
Qed.

Lemma settle_grows p r s : grows (heap s) (heap (exec (settle p r) s)).
Proof.
  unfold exec, settle.
  destruct (heap s !! p) as [[o [rs|v|e]]|] eqn:Hp; cbn [snd]; try apply grows_refl.
  state_simpl. eapply grows_insert; [exact Hp|]. split; [reflexivity|].
  cbn. intros rs' H. destruct r; discriminate.
Qed.

Lemma subscribe_grows p k s : grows (heap s) (heap (exec (subscribe p k) s)).
Proof.
  unfold exec, subscribe.
  destruct (heap s !! p) as [[o [rs|v|e]]|] eqn:Hp; cbn [snd]; try apply grows_refl.
  state_simpl. eapply grows_insert; [exact Hp|]. split; [reflexivity|].
  cbn. intros rs' [= <-]. exists [k]. reflexivity.
Qed.

Lemma capture_grows p v s : grows (heap s) (heap (exec (capture p v) s)).
Proof.
  unfold exec, capture, resolve, mbind, M_bind.
  destruct (isFunction v); cbn [modify mret M_ret];
    match goal with |- context [settle p ?r ?x] =>
      change (snd (settle p r x)) with (exec (settle p r) x);
      apply (settle_grows p r x)
    end.
Qed.

Lemma watchRun_grows p s : grows (heap s) (heap (exec (watchRun p) s)).
Proof.
  destruct (body_sync_frame (acts (Watch.qrl (watch s) (calls s))) s) as (Hh & _).
  destruct (watchRun_cases p s) as [(e & E)|[(v & Hfin & E)|(Hfin & E)]];
    cbn zeta in E; unfold exec at 1; rewrite E.
  - cbn [snd ended heap with_log]. rewrite Hh. apply grows_refl.
  - match goal with |- context [capture p v ?x] =>
      change (snd (capture p v x)) with (exec (capture p v) x);
      pose proof (capture_grows p v x) as Hg
    end.
    cbn [ended heap with_log] in Hg. rewrite Hh in Hg. exact Hg.
  - cbn [snd suspended heap with_heap]. rewrite Hh. apply grows_app.
Qed.

Lemma runWatch_grows s : grows (heap s) (heap (exec runWatch s)).
Proof.
  destruct (is_dirty (watch s)) eqn:Hd.
  - unfold exec at 1. rewrite (runWatch_dirty _ Hd). cbn zeta.
    assert (grows (heap s) (heap (started s))) as H0 by apply grows_app.
    destruct (Watch.running (watch s)) as [r|].
    + cbn [snd set_handle heap with_watch].
      eapply grows_trans; [exact H0 | apply subscribe_grows].
    + pose proof (watchRun_grows (length (heap s)) (started s)) as H1. unfold exec in H1.
      destruct (watchRun (length (heap s)) (started s)) as [[e|[]] s3];
        cbn [snd set_handle heap with_watch] in *.
      * eapply grows_trans; [exact H0|]. eapply grows_trans; [exact H1|].
        apply settle_grows.
      * eapply grows_trans; [exact H0 | exact H1].
  - unfold exec. rewrite (runWatch_clean s Hd). cbn [snd heap with_heap]. apply grows_app.
Qed.

Lemma tick_grows s : grows (heap s) (heap (exec tick s)).
Proof.
  unfold exec, tick. destruct (queue s) as [|j q]; [apply grows_refl|].
  change (heap s) with (heap (with_queue q s)) at 1.
  generalize (with_queue q s). clear s. intros s.
  destruct j as [r [e|v]]; cbn [run_job].
  - destruct r as [p|p|d|d p|d]; cbn [react_rejected]; try apply grows_refl.
    cbn [settle_derived modify snd]. destruct (derived s !! d) as [[|]|]; apply grows_refl.
  - unfold try_catch. destruct r as [p|p|d|d p|d]; cbn [react].
    + pose proof (watchRun_grows p s) as H. unfold exec in H.
      destruct (watchRun p s) as [[e|[]] s1]; exact H.
    + pose proof (capture_grows p v s) as H. unfold exec in H.
      destruct (capture p v s) as [[e|[]] s1]; exact H.
    + pose proof (runWatch_grows s) as H. unfold exec in H.
      unfold mbind, M_bind. destruct (runWatch s) as [[e|p] s1]; cbn [snd] in *.
      * cbn [settle_derived modify snd]. destruct (derived s1 !! d) as [[|]|]; exact H.
      * exact H.
    + pose proof (subscribe_grows p (RForward d) s) as H. unfold exec in H.
      destruct (subscribe p (RForward d) s) as [[e|[]] s1]; exact H.
    + cbn [settle_derived modify snd]. destruct (derived s !! d) as [[|]|]; apply grows_refl.
Qed.

Lemma destroyWatch_heap s : heap (exec destroyWatch s) = heap s.
Proof.
  unfold exec, destroyWatch, mbind, M_bind, get.
  destruct (Int32.truthy _); [|apply cleanupWatch_frame].
  cbn [modify]. rewrite invokeBare_effect. cbn zeta.
  match goal with |- context [run_actions false ?l ?s0] =>
    destruct (run_actions_bare_frame l s0) as (H1 & _); unfold exec in H1;
    destruct (run_actions false l s0) as [[e|[]] s1]
  end; exact H1.
Qed.

Lemma step_grows i s : grows (heap s) (heap (exec (step i) s)).
Proof.
  destruct i as [| | |b r|]; cbn [step].
  - pose proof (runWatch_grows s) as H. unfold exec, mbind, M_bind in *.
    destruct (runWatch s) as [[e|p] s1]; exact H.
  - apply grows_refl.
  - apply tick_grows.
  - unfold exec, settle_body.
    destruct (heap s !! b) as [[[|n] [rs|v|e]]|] eqn:Hb; try apply grows_refl.
    unfold mbind, M_bind, emit, modify. cbn [snd].
    match goal with |- context [settle b r ?x] =>
      change (snd (settle b r x)) with (exec (settle b r) x);
      apply (settle_grows b r x)
    end.
  - rewrite destroyWatch_heap. apply grows_refl.
Qed.

Lemma run_inputs_grows l s : grows (heap s) (heap (run_inputs l s)).
Proof.
  revert s. induction l as [|i l IH]; intros s; [apply grows_refl|].
  cbn. eapply grows_trans; [apply step_grows | apply IH].
Qed.

(** While a promise is pending, whatever was parked on it is still parked. *)
Lemma parked_until_settled l s r o rs k :
  heap s !! r = Some {| own := o; st := Pending rs |} → In k rs →
  ∀ c' rs', heap (run_inputs l s) !! r = Some c' → st c' = Pending rs' → In k rs'.
Proof.
  intros Hr Hk c' rs' Hr' Hst.
  destruct (run_inputs_grows l s r _ Hr) as (c2 & Hc2 & _ & Hev).
  rewrite Hr' in Hc2. injection Hc2 as <-. cbn in Hev.
  destruct (Hev rs' Hst) as (extra & ->). apply in_or_app. left. exact Hk.
Qed.

(** ** Single flight *)

Lemma useWatchQrl_effect qrl opts c s :
  scope_watch c = false →
  useWatchQrl qrl opts c s
  = (inr (let c' := useWaitOn (length (derived s))
                      (push_watch (watch_of qrl c) (setWatch c)) in
          if isServer c then useRunWatch (watch_of qrl c) (opts ≫= run) c' else c'),
     registered qrl c s).
Proof. intros Hc. unfold useWatchQrl, mbind at 1 2 3, M_bind. rewrite Hc. reflexivity. Qed.

Lemma useWatchQrl_inv qrl opts c w :
  scope_watch c = false → inv (exec (useWatchQrl qrl opts c) (fresh w)).
Proof.
  intros Hc. unfold exec. rewrite (useWatchQrl_effect _ _ _ _ Hc). cbn [snd].
  unfold inv. split; unfold tokens; cbn.
  - constructor.
  - intros r [=].
  - exists false. split; reflexivity.
  - unfold count. cbn. lia.
  - left. reflexivity.
Qed.

(** Runs of a descriptor whose body does not call back into the runner
    never overlap.  Whatever the scheduler, the environment and the event
    loop do, no body starts while an earlier body of the descriptor has not
    settled.  A [runWatch] that finds the handle of the previous run pending
    starts nothing within the call: its callback, which runs the cleanup and
    the body, is parked on that handle, and it is still parked there for as
    long as the handle is pending. *)
Theorem runWatch_single_flight :
  (∀ qrl el f i inputs,
     single_flight (log (run_inputs inputs (fresh (mkWatch qrl el f i)))))
  ∧ (∀ qrl opts c w inputs,
       scope_watch c = false →
       single_flight (log (run_inputs inputs (exec (useWatchQrl qrl opts c) (fresh w)))))
  ∧ (∀ s r o rs,
       is_dirty (watch s) = true →
       Watch.running (watch s) = Some r →
       heap s !! r = Some {| own := o; st := Pending rs |} →
       log (exec runWatch s) = log s
       ∧ calls (exec runWatch s) = calls s
       ∧ queue (exec runWatch s) = queue s
       ∧ heap (exec runWatch s) !! r
         = Some {| own := o; st := Pending (rs ++ [RRun (length (heap s))]) |}
       ∧ Watch.running (watch (exec runWatch s)) = Some (length (heap s))
       ∧ (∀ inputs c' rs',
            heap (run_inputs inputs (exec runWatch s)) !! r = Some c' →
            st c' = Pending rs' →
            In (RRun (length (heap s))) rs')).
Proof.
  split; [|split].
  - intros qrl el f i inputs. apply inv_single_flight, run_inputs_inv, fresh_inv. reflexivity.
  - intros qrl opts c w inputs Hc. apply inv_single_flight, run_inputs_inv, useWatchQrl_inv, Hc.
  - intros s r o rs Hd Hr Hp.
    destruct (runWatch_chained s r o rs Hd Hr Hp) as (_ & Hl & Hc & Hq & _ & _ & Hh & _ & Hn).
    repeat split; try assumption.
    intros inputs c' rs'. eapply parked_until_settled; [exact Hh|].
    apply in_or_app. right. left. reflexivity.
Qed.

Lemma runWatch_single_flight_witness :
  let q : QRL := λ _, {| acts := [AWrite]; fin := Await |} in
  let s := run_inputs [InRun] (fresh (mkWatch q 0 6 0)) in
  log (exec runWatch s) = log s
  ∧ heap (exec runWatch s) !! 0%nat = Some {| own := ORun; st := Pending [RRun 2%nat] |}.
Proof.
  intros q s.
  destruct (proj2 (proj2 runWatch_single_flight) s 0%nat ORun [] eq_refl eq_refl eq_refl)
    as (Hl & _ & _ & Hh & _).
  split; [exact Hl | exact Hh].
Defined.

(** ** The dirty flag *)

Lemma started_clean s : is_dirty (watch (started s)) = false.
Proof.
  unfold started. state_simpl. rewrite is_dirty_set_f.
  change WatchFlagsIsDirty with (2 ^ 2). rewrite clear_flag_bit by lia.
  apply andb_false_r.
Qed.

(** Clearing IS_DIRTY leaves the other flags as they were. *)
Lemma started_flags s n :
  0 ≤ n < 32 → n ≠ 2 →
  Z.testbit (Watch.f (watch (started s))) n = Z.testbit (Watch.f (watch s)) n.
Proof.
  intros Hn Hne. unfold started. state_simpl. cbn [Watch.f set_f].
  change WatchFlagsIsDirty with (2 ^ 2). rewrite clear_flag_bit by lia.
  destruct (Z.eqb_spec 2 n); [lia|]. apply andb_true_r.
Qed.

Lemma capture_f p v s : Watch.f (watch (exec (capture p v) s)) = Watch.f (watch s).
Proof.
  unfold exec, capture, resolve, mbind, M_bind.
  destruct (isFunction v); cbn [modify mret M_ret];
    match goal with |- context [settle p ?r ?x] =>
      change (snd (settle p r x)) with (exec (settle p r) x) end;
    rewrite settle_watch; reflexivity.
Qed.

(** The flags [watchRun] leaves are those the body left. *)
Lemma watchRun_f p s :
  Watch.f (watch (exec (watchRun p) s))
  = Watch.f (watch (exec (run_actions true (acts (Watch.qrl (watch s) (calls s))))
                      (body_entry (exec cleanupWatch s)))).
Proof.
  destruct (watchRun_cases p s) as [(e & E)|[(v & Hfin & E)|(Hfin & E)]];
    cbn zeta in E; unfold exec at 1; rewrite E; try reflexivity.
  match goal with |- context [capture p v ?x] =>
    change (snd (capture p v x)) with (exec (capture p v) x) end.
  rewrite capture_f. reflexivity.
Qed.

Lemma watchRun_keeps_dirty p s :
  is_dirty (watch s) = true → is_dirty (watch (exec (watchRun p) s)) = true.
Proof.
  intros Hd. unfold is_dirty. rewrite watchRun_f.
  apply (run_actions_frame true). unfold is_dirty, body_entry. state_simpl.
  destruct (cleanupWatch_frame s) as (_ & _ & _ & _ & _ & _ & _ & Hf & _).
  rewrite Hf. exact Hd.
Qed.

Lemma watchRun_write_dirties p s l :
  acts (Watch.qrl (watch s) (calls s)) = AWrite :: l →
  is_dirty (watch (exec (watchRun p) s)) = true.
Proof.
  intros Ha. unfold is_dirty. rewrite watchRun_f, Ha.
  cbn [run_actions]. unfold exec, mbind, M_bind.
  match goal with |- context [markDirty ?x] =>
    pose proof (is_dirty_markDirty x) as Hm; unfold exec in Hm;
    destruct (markDirty x) as [[e|[]] s1] eqn:E; [discriminate|]
  end.
  cbn [snd] in Hm. apply (run_actions_frame true l s1), Hm.
Qed.

Lemma settle_body_f b r s : Watch.f (watch (exec (settle_body b r) s)) = Watch.f (watch s).
Proof.
  unfold exec, settle_body.
  destruct (heap s !! b) as [[[|n] [rs|v|e]]|] eqn:Hb; try reflexivity.
  unfold mbind, M_bind, emit, modify, settle. state_simpl. rewrite Hb. reflexivity.
Qed.

(** C2: [runWatch] clears IS_DIRTY before anything is awaited and before the
    body is called.  The executor runs on [started s], where the flag is
    clear: there the callback is either parked behind the previous handle
    or run at once.  A call that has to wait hands back with the flag clear;
    a body that writes to a tracked property leaves the flag set when a
    first run hands back; neither the callbacks of the run in progress nor
    the settling of its body clear a flag that was set again; and the next
    [runWatch] on the dirty descriptor makes a new run, whose promise
    becomes the handle. *)
Theorem runWatch_clears_dirty_first (s : state) :
  is_dirty (watch s) = true →
  is_dirty (watch (started s)) = false
  ∧ runWatch s
    = (let p := length (heap s) in
       match Watch.running (watch s) with
       | None =>
           match watchRun p (started s) with
           | (inl e, s3) => (inr p, set_handle p (exec (reject p e) s3))
           | (inr _, s3) => (inr p, set_handle p s3)
           end
       | Some r => (inr p, set_handle p (exec (subscribe r (RRun p)) (started s)))
       end)
  ∧ (∀ r, Watch.running (watch s) = Some r →
       is_dirty (watch (exec runWatch s)) = false)
  ∧ (∀ l, Watch.running (watch s) = None →
       acts (Watch.qrl (watch s) (calls s)) = AWrite :: l →
       is_dirty (watch (exec runWatch s)) = true)
  ∧ (∀ p s', is_dirty (watch s') = true → is_dirty (watch (exec (watchRun p) s')) = true)
  ∧ (∀ p v s', is_dirty (watch s') = true → is_dirty (watch (exec (capture p v) s')) = true)
  ∧ (∀ b r s', is_dirty (watch s') = true →
       is_dirty (watch (exec (settle_body b r) s')) = true)
  ∧ (∀ s', is_dirty (watch s') = true →
       fst (runWatch s') = inr (length (heap s'))
       ∧ Watch.running (watch (exec runWatch s')) = Some (length (heap s'))).
Proof.
  intros Hd. split; [apply started_clean|]. split; [apply runWatch_dirty, Hd|].
  split; [|split; [|split; [|split; [|split]]]].
  - intros r Hr. unfold exec. rewrite (runWatch_dirty _ Hd). cbn zeta. rewrite Hr.
    cbn [snd]. unfold set_handle, exec, subscribe.
    pose proof (started_clean s) as Hc.
    destruct (heap (started s) !! r) as [[o [rs|v|e]]|]; exact Hc.
  - intros l Hr Ha. unfold exec. rewrite (runWatch_dirty _ Hd). cbn zeta. rewrite Hr.
    pose proof (watchRun_write_dirties (length (heap s)) (started s) l Ha) as Hw.
    unfold exec in Hw.
    destruct (watchRun (length (heap s)) (started s)) as [[e|[]] s3]; cbn [snd] in *.
    + unfold set_handle, reject. state_simpl.
      change (is_dirty (watch (exec (settle (length (heap s)) (inl e)) s3)) = true).
      rewrite settle_watch. exact Hw.
    + exact Hw.
  - intros p s'. apply watchRun_keeps_dirty.
  - intros p v s' H. unfold is_dirty. rewrite capture_f. exact H.
  - intros b r s' H. unfold is_dirty. rewrite settle_body_f. exact H.
  - intros s' Hd'. unfold exec. rewrite (runWatch_dirty _ Hd'). cbn zeta.
    destruct (Watch.running (watch s')) as [r|]; [split; reflexivity|].
    destruct (watchRun (length (heap s')) (started s')) as [[e|[]] s3]; split; reflexivity.
Qed.

Lemma runWatch_clears_dirty_first_witness :
  let q : QRL := λ _, {| acts := [AWrite]; fin := Await |} in
  let s := fresh (mkWatch q 0 6 0) in
  is_dirty (watch (started s)) = false ∧ is_dirty (watch (exec runWatch s)) = true.
Proof.
  intros q s.
  destruct (runWatch_clears_dirty_first s eq_refl) as (H1 & _ & _ & H3 & _).
  split; [exact H1 | exact (H3 [] eq_refl eq_refl)].
Defined.

(** ** Cleanup and body in one run *)

Lemma watchRun_unfold p s :
  watchRun p s
  = (r ← invokeFn clearSub; then_ r (RCapture p) (capture p)) (exec cleanupWatch s).
Proof.
  unfold watchRun, mbind at 1, M_bind at 1, exec.
  pose proof (cleanupWatch_ok s) as Hok.
  destruct (cleanupWatch s) as [[e|[]] s0]; [discriminate | reflexivity].
Qed.

Lemma capture_log p v s : log (exec (capture p v) s) = log s.
Proof.
  unfold exec, capture, resolve, mbind, M_bind, settle.
  destruct (isFunction v); cbn [modify mret M_ret]; state_simpl;
    destruct (heap s !! p) as [[o [rs|v'|e']]|]; reflexivity.
Qed.

Lemma watchRun_log p s :
  ∃ evs,
    log (exec (watchRun p) s)
    = evs ++ EBodyStart (calls s) :: EClearSub :: log (exec cleanupWatch s)
    ∧ Forall (body_event (calls s)) evs.
Proof.
  destruct (run_actions_frame true (acts (Watch.qrl (watch s) (calls s)))
              (body_entry (exec cleanupWatch s)))
    as (_ & _ & _ & _ & _ & _ & _ & _ & evs & Hl & Hev).
  destruct (cleanupWatch_frame s) as (_ & _ & _ & _ & Hc & _).
  unfold body_entry at 2 in Hl. state_simpl. rewrite Hc in Hl.
  assert (Forall (body_event (calls s)) evs) as Hev'.
  { eapply Forall_impl; [exact Hev|]. intros e He. left. exact He. }
  destruct (watchRun_cases p s) as [(e & E)|[(v & Hfin & E)|(Hfin & E)]];
    cbn zeta in E; unfold exec at 1; rewrite E.
  - exists (EBodyEnd (calls s) :: evs). cbn [snd ended log with_log]. rewrite Hl.
    split; [reflexivity|]. constructor; [right; reflexivity | exact Hev'].
  - exists (EBodyEnd (calls s) :: evs).
    match goal with |- context [capture p v ?x] =>
      change (snd (capture p v x)) with (exec (capture p v) x) end.
    rewrite capture_log. cbn [ended log with_log]. rewrite Hl.
    split; [reflexivity|]. constructor; [right; reflexivity | exact Hev'].
  - exists evs. cbn [snd suspended log with_heap]. rewrite Hl. split; [reflexivity | exact Hev'].
Qed.

(** C4: in a run that finds a cleanup in the slot, the slot is emptied and
    that cleanup is called before the body starts, and it is called once:
    whatever else the run logs comes from the body, and the callback that
    later stores the result of the body calls nothing. *)
Theorem watchRun_cleanup_before_body (p : pid) (s : state) (fn : fnref) :
  Watch.destroy (watch s) = Some fn →
  (∃ evs,
     log (exec (watchRun p) s)
     = evs ++ [EBodyStart (calls s); EClearSub] ++ cleanup_log fn ++ log s
     ∧ Forall (body_event (calls s)) evs)
  ∧ Watch.destroy (watch (body_entry (exec cleanupWatch s))) = None
  ∧ (∀ q v s', log (exec (capture q v) s') = log s').
Proof.
  intros Hd. split; [|split].
  - destruct (watchRun_log p s) as (evs & Hl & Hev). exists evs. split; [|exact Hev].
    rewrite Hl. unfold exec at 1. rewrite (cleanupWatch_some _ fn Hd).
    unfold cleaned, cleanup_log. state_simpl. reflexivity.
  - unfold body_entry. state_simpl. apply cleanupWatch_slot.
  - intros q v s'. apply capture_log.
Qed.

Lemma watchRun_cleanup_before_body_witness :
  let fn := {| fn_id := 5; fn_throws := None; fn_reenters := true |} in
  let q : QRL := λ _, {| acts := []; fin := Return (VFunction fn) |} in
  let s := run_inputs [InRun; InWrite] (fresh (mkWatch q 0 6 0)) in
  ∃ evs, log (exec (watchRun 1%nat) s)
         = evs ++ [EBodyStart 1%nat; EClearSub] ++ [ECleanup fn] ++ log s.
Proof.
  intros fn q s.
  destruct (watchRun_cleanup_before_body 1%nat s fn eq_refl) as ((evs & Hl & _) & _).
  exists evs. exact Hl.
Defined.

(** C8: a cleanup that throws is logged and the throw goes no further:
    [cleanupWatch] always completes, and the run it is part of goes on with
    the body exactly as from the state [cleaned] leaves. *)
Theorem cleanupWatch_suppresses_throw (s : state) (fn : fnref) (err : error) :
  Watch.destroy (watch s) = Some fn →
  fn_throws fn = Some err →
  cleanupWatch s = (inr tt, cleaned fn s)
  ∧ log (cleaned fn s) = ELogError err :: ECleanup fn :: log s
  ∧ (∀ p, watchRun p s
          = (r ← invokeFn clearSub; then_ r (RCapture p) (capture p)) (cleaned fn s))
  ∧ (∀ p, ∃ evs, log (exec (watchRun p) s)
                 = evs ++ EBodyStart (calls s) :: EClearSub :: ELogError err
                          :: ECleanup fn :: log s)
  ∧ (∀ s', fst (cleanupWatch s') = inr tt).
Proof.
  intros Hd Ht.
  assert (exec cleanupWatch s = cleaned fn s) as Hc.
  { unfold exec. rewrite (cleanupWatch_some _ fn Hd). reflexivity. }
  assert (log (cleaned fn s) = ELogError err :: ECleanup fn :: log s) as Hl.
  { unfold cleaned. state_simpl. rewrite Ht. reflexivity. }
  split; [apply cleanupWatch_some, Hd|]. split; [exact Hl|]. split; [|split].
  - intros p. rewrite watchRun_unfold, Hc. reflexivity.
  - intros p. destruct (watchRun_log p s) as (evs & Hw & _). exists evs.
    rewrite Hw, Hc, Hl. reflexivity.
  - apply cleanupWatch_ok.
Qed.

Lemma cleanupWatch_suppresses_throw_witness :
  let fn := {| fn_id := 5; fn_throws := Some (Thrown 1); fn_reenters := true |} in
  let q : QRL := λ _, {| acts := []; fin := Return (VFunction fn) |} in
  let s := run_inputs [InRun] (fresh (mkWatch q 0 6 0)) in
  cleanupWatch s = (inr tt, cleaned fn s).
Proof.
  intros fn q s.
  exact (proj1 (cleanupWatch_suppresses_throw s fn (Thrown 1) eq_refl eq_refl)).
Defined.

(** ** The tracker *)

Lemma add_sub_elem (e e' : sub) (l : list sub) : e' ∈ add_sub e l ↔ e' = e ∨ e' ∈ l.
Proof.
  unfold add_sub. destruct (decide (e ∈ l)) as [Hin|Hnin].
  - split; [intros H; right; exact H | intros [->|H]; assumption].
  - rewrite elem_of_app, list_elem_of_singleton. tauto.
Qed.

Lemma truthy_key_name (p : string) : p ≠ "" → truthy_key p = true.
Proof. destruct p; [intros H; contradiction H; reflexivity | reflexivity]. Qed.

Lemma truthy_key_index (n : Z) : n ≠ 0 → truthy_key (KNumber n) = true.
Proof. intros H. cbn. apply negb_true_iff, Z.eqb_neq, H. Qed.

(** What the tracker does on a trackable object when it is called as the
    contract has it: with no key it hands back the object itself, with a
    key that is not falsy the current value of the property; in both cases
    it records, for the descriptor, the subscription for exactly what was
    passed and touches nothing else. *)
Lemma track_contract (obj : jsval) (target : nat) (s : state) :
  getProxyTarget obj = Some target →
  track obj None s
  = (inr obj, with_subs (add_sub (watch_sub target None) (subs s)) s)
  ∧ (∀ p, truthy_key p = true →
       track obj (Some p) s
       = (inr (get_prop obj p),
          with_subs (add_sub (watch_sub target (Some p)) (subs s)) s))
  ∧ (∀ prop e, e ∈ add_sub (watch_sub target prop) (subs s)
               ↔ e = watch_sub target prop ∨ e ∈ subs s).
Proof.
  intros Ht. split; [|split].
  - rewrite track_effect, Ht. reflexivity.
  - intros p Hp. rewrite track_effect, Ht, Hp. reflexivity.
  - intros prop e. apply add_sub_elem.
Qed.

(** C5: the tracker tests the key with [if (prop)], so a key that is falsy,
    the index 0 of a list or the empty name, takes the branch of a call
    without a key.  The tracker hands back the object itself and not the
    value of the property, while the subscription it has recorded is the one
    scoped to that property. *)
Theorem track_falsy_key (obj : jsval) (target : nat) (k : key) (s : state) :
  getProxyTarget obj = Some target →
  truthy_key k = false →
  track obj (Some k) s
  = (inr obj, with_subs (add_sub (watch_sub target (Some k)) (subs s)) s).
Proof. intros Ht Hk. rewrite track_effect, Ht, Hk. reflexivity. Qed.

Lemma track_falsy_key_witness :
  let items := VObject (Some 7%nat) [("0", VString "first"); ("length", VNumber 1)] None in
  let s := fresh (mkWatch (λ _, {| acts := []; fin := Return VUndefined |}) 0 6 0) in
  get_prop items (KNumber 0) = VString "first"
  ∧ fst (track items (Some (KNumber 0)) s) = inr items
  ∧ subs (exec (track items (Some (KNumber 0))) s) = [watch_sub 7%nat (Some (KNumber 0))].
Proof.
  intros items s.
  pose proof (track_falsy_key items 7%nat (KNumber 0) s eq_refl eq_refl) as H.
  split; [reflexivity|]. unfold exec. rewrite H. split; reflexivity.
Defined.

(** The same on the property named by the empty string, and a property found
    on the prototype read through a key that is not falsy. *)
Lemma track_empty_property_name :
  let base := VObject None [("label", VString "inherited")] None in
  let obj := VObject (Some 7%nat) [("", VNumber 3)] (Some base) in
  let s := fresh (mkWatch (λ _, {| acts := []; fin := Return VUndefined |}) 0 6 0) in
  get_prop obj "" = VNumber 3
  ∧ fst (track obj (Some (KString "")) s) = inr obj
  ∧ fst (track obj (Some (KString "")) s) ≠ inr (get_prop obj "")
  ∧ fst (track obj (Some (KString "label")) s) = inr (VString "inherited").
Proof.
  intros base obj s. split; [reflexivity|]. split; [reflexivity|].
  split; [discriminate | reflexivity].
Qed.

Lemma watchRun_track_fails p s obj prop l :
  getProxyTarget obj = None →
  acts (Watch.qrl (watch s) (calls s)) = ATrack obj prop :: l →
  watchRun p s
  = (inl not_a_proxy, ended (calls s) (body_entry (exec cleanupWatch s))).
Proof.
  intros Ht Ha. rewrite watchRun_unfold.
  destruct (cleanupWatch_frame s) as (_ & _ & _ & _ & Hc & _ & Hq & _).
  unfold mbind at 1, M_bind at 1. rewrite invokeFn_clearSub. cbn zeta.
  rewrite Hc, Hq, Ha. cbn [run_actions].
  unfold mbind at 1, M_bind at 1. rewrite track_effect, Ht. reflexivity.
Qed.

(** C7: on an object that is not trackable the tracker raises the assertion
    error before it records anything.  The runner does not catch it: the
    callback of [runWatch] ends with that error and nothing is logged as an
    error; a first run hands back a promise rejected with it, and for a
    chained run it is the rejection of the promise [.then] made. *)
Theorem track_not_proxy_fails (obj : jsval) (prop : option key) (s : state) :
  getProxyTarget obj = None →
  track obj prop s = (inl not_a_proxy, s)
  ∧ (∀ p l, acts (Watch.qrl (watch s) (calls s)) = ATrack obj prop :: l →
       fst (watchRun p s) = inl not_a_proxy
       ∧ log (exec (watchRun p) s)
         = EBodyEnd (calls s) :: EBodyStart (calls s) :: EClearSub
             :: log (exec cleanupWatch s)
       ∧ subs (exec (watchRun p) s) = filter (λ e, sub_by e ≠ SubWatch) (subs s)
       ∧ (∀ v, log (exec (run_job (Job (RRun p) (inr v))) s)
               = EUnhandled not_a_proxy :: log (exec (watchRun p) s)))
  ∧ (∀ l, is_dirty (watch s) = true → Watch.running (watch s) = None →
       acts (Watch.qrl (watch s) (calls s)) = ATrack obj prop :: l →
       fst (runWatch s) = inr (length (heap s))
       ∧ heap (exec runWatch s) !! length (heap s)
         = Some {| own := ORun; st := Rejected not_a_proxy |}).
Proof.
  intros Ht. split; [rewrite track_effect, Ht; reflexivity|]. split.
  - intros p l Ha. pose proof (watchRun_track_fails p s obj prop l Ht Ha) as E.
    destruct (cleanupWatch_frame s) as (_ & _ & _ & Hs & Hc & _).
    assert (exec (watchRun p) s = ended (calls s) (body_entry (exec cleanupWatch s))) as Hx
      by (unfold exec at 1; rewrite E; reflexivity).
    rewrite Hx, E. cbn [fst].
    split; [reflexivity|]. split; [|split].
    + unfold ended, body_entry. state_simpl. rewrite Hc. reflexivity.
    + unfold ended, body_entry. state_simpl. rewrite Hs. reflexivity.
    + intros v. unfold exec at 1. unfold run_job, try_catch. cbn [react]. rewrite E.
      reflexivity.
  - intros l Hd Hr Ha.
    assert (acts (Watch.qrl (watch (started s)) (calls (started s))) = ATrack obj prop :: l)
      as Ha' by exact Ha.
    set (s3 := ended (calls (started s)) (body_entry (exec cleanupWatch (started s)))).
    assert (runWatch s
            = (inr (length (heap s)),
               set_handle (length (heap s)) (exec (reject (length (heap s)) not_a_proxy) s3)))
      as E.
    { rewrite (runWatch_dirty _ Hd). cbn zeta. rewrite Hr.
      rewrite (watchRun_track_fails _ (started s) obj prop l Ht Ha'). reflexivity. }
    unfold exec at 1. rewrite E. cbn [fst snd]. split; [reflexivity|].
    destruct (cleanupWatch_frame (started s)) as (Hh & _).
    assert (heap s3 = heap (started s)) as H3 by exact Hh.
    clearbody s3. unfold set_handle. cbn [heap with_watch].
    unfold exec, reject, settle. rewrite H3, started_fresh. cbn [snd heap with_queue with_heap].
    apply list_lookup_insert_eq. eapply lookup_lt_Some, started_fresh.
Qed.

Lemma track_not_proxy_fails_witness :
  let obj := VObject None [("count", VNumber 3)] None in
  let q : QRL := λ _, {| acts := [ATrack obj (Some (KString "count"))]; fin := Return VUndefined |} in
  let s := fresh (mkWatch q 0 6 0) in
  track obj (Some (KString "count")) s = (inl not_a_proxy, s)
  ∧ heap (exec runWatch s) !! 0%nat = Some {| own := ORun; st := Rejected not_a_proxy |}.
Proof.
  intros obj q s.
  destruct (track_not_proxy_fails obj (Some (KString "count")) s eq_refl) as (H1 & _ & H3).
  split; [exact H1|]. exact (proj2 (H3 [] eq_refl eq_refl eq_refl)).
Defined.

(** ** The destroy path *)

Lemma run_actions_writes l s :
  Forall (λ a, a = AWrite) l → fst (run_actions false l s) = inr tt.
Proof.
  intros H. revert s. induction H as [|a l -> _ IH]; intros s; [reflexivity|].
  cbn [run_actions]. unfold mbind, M_bind. cbn [markDirty modify]. apply IH.
Qed.

(** C9: with IS_CLEANUP set, [destroyWatch] clears the flag and calls the
    registered function itself, once and with no argument; the stored
    cleanup is not touched and nothing is logged as an error; what
    [destroyWatch] ends with is what that call ends with, so when the
    function throws, the error is the result of [destroyWatch]. *)
Theorem destroyWatch_cleanup_flag (s : state) :
  is_cleanup (watch s) = true →
  is_cleanup (watch (exec destroyWatch s)) = false
  ∧ log (exec destroyWatch s) = ETeardown (calls s) :: log s
  ∧ calls (exec destroyWatch s) = S (calls s)
  ∧ Watch.destroy (watch (exec destroyWatch s)) = Watch.destroy (watch s)
  ∧ fst (destroyWatch s)
    = fst (invokeBare
             (with_watch (set_f (Int32.and (Watch.f (watch s))
                                   (Int32.not WatchFlagsIsCleanup))) s))
  ∧ (∀ e, Forall (λ a, a = AWrite) (acts (Watch.qrl (watch s) (calls s))) →
       fin (Watch.qrl (watch s) (calls s)) = Throw e →
       fst (destroyWatch s) = inl e).
Proof.
  intros Hc. unfold is_cleanup in Hc.
  set (s0 := with_log (ETeardown (calls s) :: log s)
               (with_calls (S (calls s))
                  (with_watch (set_f (Int32.and (Watch.f (watch s))
                                        (Int32.not WatchFlagsIsCleanup))) s))).
  set (sc := Watch.qrl (watch s) (calls s)).
  assert (destroyWatch s
          = match run_actions false (acts sc) s0 with
            | (inl e, s1) => (inl e, s1)
            | (inr _, s1) => (match fin sc with Throw e => inl e | _ => inr tt end, s1)
            end) as E.
  { unfold destroyWatch, mbind at 1, M_bind at 1, get. rewrite Hc.
    unfold mbind at 1, M_bind at 1. cbn [modify]. rewrite invokeBare_effect. reflexivity. }
  destruct (run_actions_bare_frame (acts sc) s0) as (_ & _ & _ & Hd & _ & Hl & Hn & Hb).
  assert (exec destroyWatch s = exec (run_actions false (acts sc)) s0) as Hx.
  { unfold exec. rewrite E. destruct (run_actions false (acts sc) s0) as [[e|[]] s1]; reflexivity. }
  rewrite Hx, Hl, Hn, Hd. repeat split.
  - rewrite is_cleanup_bit, Hb by lia. subst s0. state_simpl. cbn [Watch.f set_f].
    change WatchFlagsIsCleanup with (2 ^ 3). rewrite clear_flag_bit by lia.
    apply andb_false_r.
  - rewrite E, invokeBare_effect. cbn zeta.
    change (with_log _ (with_calls _ (with_watch _ s))) with s0.
    change (Watch.qrl (watch (with_watch _ s)) (calls (with_watch _ s))) with sc.
    destruct (run_actions false (acts sc) s0) as [[e'|[]] s1]; reflexivity.
  - intros e Hw Hf. rewrite E.
    pose proof (run_actions_writes (acts sc) s0 Hw) as Hok.
    destruct (run_actions false (acts sc) s0) as [[e'|[]] s1]; [discriminate|].
    rewrite Hf. reflexivity.
Qed.

Lemma destroyWatch_cleanup_flag_witness :
  let q : QRL := λ _, {| acts := []; fin := Throw (Thrown 9) |} in
  let s := fresh (mkWatch q 0 8 0) in
  fst (destroyWatch s) = inl (Thrown 9) ∧ log (exec destroyWatch s) = [ETeardown 0].
Proof.
  intros q s.
  destruct (destroyWatch_cleanup_flag s eq_refl) as (_ & Hl & _ & _ & _ & He).
  split; [apply He; [constructor | reflexivity] | exact Hl].
Defined.

(** ** Registrars and setup *)

Lemma useClientEffectQrl_effect qrl opts c s :
  scope_watch c = false →
  useClientEffectQrl qrl opts c s
  = (inr (observe (useRunWatch (effect_of qrl c) (Some (default RunVisible (opts ≫= run)))
                     (push_watch (effect_of qrl c) (setWatch c)))),
     with_watch (λ _, effect_of qrl c) s).
Proof. intros Hc. unfold useClientEffectQrl, mbind at 1, M_bind. rewrite Hc. reflexivity. Qed.

Lemma waitOn_useRunWatch w r c : waitOn (useRunWatch w r c) = waitOn c.
Proof. destruct r as [[|]|]; reflexivity. Qed.

(** C6, as amended: neither registrar calls the body or a cleanup within
    the registrar call.  [useClientEffectQrl] leaves the microtask queue and
    the promises setup waits on as they were.  [useWatchQrl], on the call
    that creates the descriptor, queues the first run as a microtask and
    hands the promise of that deferred run to [useWaitOn]: setup is not
    ready when the registrar hands back. *)
Theorem registrars_defer_initial_run (qrl : QRL) (opts : option UseEffectOptions)
    (c : component) (s : state) :
  (log (exec (useWatchQrl qrl opts c) s) = log s
   ∧ calls (exec (useWatchQrl qrl opts c) s) = calls s
   ∧ heap (exec (useWatchQrl qrl opts c) s) = heap s)
  ∧ (log (exec (useClientEffectQrl qrl opts c) s) = log s
     ∧ calls (exec (useClientEffectQrl qrl opts c) s) = calls s
     ∧ heap (exec (useClientEffectQrl qrl opts c) s) = heap s
     ∧ derived (exec (useClientEffectQrl qrl opts c) s) = derived s
     ∧ queue (exec (useClientEffectQrl qrl opts c) s) = queue s
     ∧ ∃ c', fst (useClientEffectQrl qrl opts c s) = inr c' ∧ waitOn c' = waitOn c)
  ∧ (scope_watch c = false →
     ∃ c', fst (useWatchQrl qrl opts c s) = inr c'
           ∧ waitOn c' = waitOn c ++ [length (derived s)]
           ∧ queue (exec (useWatchQrl qrl opts c) s)
             = queue s ++ [Job (RDeferred (length (derived s))) (inr VUndefined)]
           ∧ is_settled (exec (useWatchQrl qrl opts c) s) (length (derived s)) = false
           ∧ setup_ready c' (exec (useWatchQrl qrl opts c) s) = false).
Proof.
  split; [|split].
  - destruct (scope_watch c) eqn:Hc.
    + unfold exec, useWatchQrl. rewrite Hc. repeat split.
    + unfold exec. rewrite (useWatchQrl_effect _ _ _ _ Hc). repeat split.
  - destruct (scope_watch c) eqn:Hc.
    + unfold exec, useClientEffectQrl. rewrite Hc. repeat split.
      exists c. split; reflexivity.
    + unfold exec. rewrite (useClientEffectQrl_effect _ _ _ _ Hc). repeat split.
      eexists. split; [reflexivity|].
      unfold observe. cbn [waitOn]. rewrite waitOn_useRunWatch. reflexivity.
  - intros Hc. unfold exec. rewrite (useWatchQrl_effect _ _ _ _ Hc). cbn [fst snd].
    assert (is_settled (registered qrl c s) (length (derived s)) = false) as Hns.
    { unfold is_settled, registered. state_simpl.
      rewrite list_lookup_middle by reflexivity. reflexivity. }
    eexists. split; [reflexivity|].
    assert (∀ c0, waitOn (if isServer c then useRunWatch (watch_of qrl c) (opts ≫= run) c0
                          else c0) = waitOn c0) as Hw.
    { intros c0. destruct (isServer c); [apply waitOn_useRunWatch | reflexivity]. }
    cbn zeta. split; [rewrite Hw; reflexivity|]. split; [reflexivity|].
    split; [exact Hns|].
    unfold setup_ready. rewrite Hw. cbn [useWaitOn waitOn].
    rewrite forallb_app. cbn [forallb]. rewrite Hns. cbn. apply andb_false_r.
Qed.

Lemma registrars_defer_initial_run_witness :
  let c := {| scope_watch := false; scope_i := 0; hostElement := 0; isServer := true;
              el_watches := []; waitOn := []; resumeQrls := []; visibleQrls := [];
              qO := None |} in
  let q : QRL := λ _, {| acts := []; fin := Await |} in
  let s := fresh (mkWatch q 0 0 0) in
  queue (exec (useWatchQrl q None c) s) = [Job (RDeferred 0) (inr VUndefined)].
Proof.
  intros c q s.
  destruct (proj2 (proj2 (registrars_defer_initial_run q None c s)) eq_refl)
    as (c' & _ & _ & Hq & _).
  exact Hq.
Defined.

(** Setup does wait for the body of a tracked watch: with a body that hands
    back a promise, the event loop runs dry with the body in flight and
    setup not ready, and setup becomes ready once the body has settled. *)
Lemma useWatchQrl_setup_waits :
  let c := {| scope_watch := false; scope_i := 0; hostElement := 0; isServer := false;
              el_watches := []; waitOn := []; resumeQrls := []; visibleQrls := [];
              qO := None |} in
  let q : QRL := λ _, {| acts := []; fin := Await |} in
  let s := fresh (mkWatch q 0 0 0) in
  let c' := match fst (useWatchQrl q None c s) with inr c' => c' | inl _ => c end in
  let s1 := run_inputs [InTick; InTick] (exec (useWatchQrl q None c) s) in
  let s2 := run_inputs [InSettle 1%nat (inr VUndefined); InTick; InTick] s1 in
  waitOn c' = [0%nat]
  ∧ queue s1 = []
  ∧ rev (log s1) = [EClearSub; EBodyStart 0]
  ∧ setup_ready c' s1 = false
  ∧ rev (log s2) = [EClearSub; EBodyStart 0; EBodyEnd 0]
  ∧ setup_ready c' s2 = true.
Proof. vm_compute. repeat split. Qed.

(** ** A body that calls [runWatch] *)

Lemma reentrant_run_actions_inert (nested : M pid) (l : list action) (s : state) :
  Reentrant.run_actions nested (map Reentrant.Inert l) s = run_actions true l s.
Proof.
  revert s. induction l as [|a l IH]; intros s; [reflexivity|].
  cbn [map Reentrant.run_actions]. unfold Reentrant.inert.
  destruct a as [obj prop|]; cbn [run_actions]; unfold mbind, M_bind.
  - destruct (track obj prop s) as [[e|v] s1]; [reflexivity|].
    cbn [emit modify mret M_ret]. apply IH.
  - cbn [markDirty modify mret M_ret]. apply IH.
Qed.

Lemma reentrant_watchRun_inert (nested : M pid) (q : QRL) (p : pid) (s : state) :
  Watch.qrl (watch s) = q →
  Reentrant.watchRun nested (Reentrant.lift q) p s = watchRun p s.
Proof.
  intros Hq. rewrite watchRun_unfold.
  unfold Reentrant.watchRun. unfold mbind at 1, M_bind at 1.
  pose proof (cleanupWatch_ok s) as Hok.
  destruct (cleanupWatch_frame s) as (_ & _ & _ & _ & _ & _ & Hq0 & _).
  unfold exec in *. destruct (cleanupWatch s) as [[e|[]] s0]; [discriminate|].
  cbn [snd] in *. rewrite Hq in Hq0.
  assert (Reentrant.invokeFn nested (Reentrant.lift q) clearSub s0 = invokeFn clearSub s0)
    as E; [|unfold mbind, M_bind; rewrite E; reflexivity].
  unfold Reentrant.invokeFn, invokeFn, clearSub, next_call, get, emit, modify, try_catch,
    mbind, M_bind.
  state_simpl. cbn [Watch.qrl]. rewrite Hq0.
  cbn [Reentrant.lift Reentrant.racts Reentrant.rfin].
  rewrite reentrant_run_actions_inert. reflexivity.
Qed.

(** On a function that never calls back, the runner of [Reentrant] is
    [runWatch], with any room on the call stack. *)
Lemma reentrant_runWatch_inert (depth : nat) (q : QRL) (s : state) :
  Watch.qrl (watch s) = q →
  Reentrant.runWatch depth (Reentrant.lift q) s = runWatch s.
Proof.
  intros Hq.
  assert (∀ nested, Reentrant.runWatch_at nested (Reentrant.lift q) s = runWatch s) as H.
  { intros nested. unfold Reentrant.runWatch_at, runWatch, mbind, M_bind, get.
    destruct (negb _); [reflexivity|]. cbn [modify alloc]. unfold try_catch.
    state_simpl. cbn [Watch.running set_f].
    destruct (Watch.running (watch s)) as [r|]; cbn [as_value_or_promise then_];
      [reflexivity|].
    rewrite reentrant_watchRun_inert by exact Hq. reflexivity. }
  destruct depth; cbn [Reentrant.runWatch]; apply H.
Qed.


(** * Further properties of the runner *)

(** ** A failed run blocks the descriptor *)

Lemma starts_cons e l : starts (e :: l) = ((if is_body_start e then 1 else 0) + starts l)%nat.
Proof. apply count_cons. Qed.

Lemma starts_app_quiet evs l :
  Forall (λ e, is_body_start e = false) evs → starts (evs ++ l) = starts l.
Proof.
  induction 1 as [|e evs He _ IH]; [reflexivity|].
  cbn [app]. rewrite starts_cons, He, IH. reflexivity.
Qed.

Lemma blocked_frame s s' :
  heap s' = heap s → queue s' = queue s →
  Watch.running (watch s') = Watch.running (watch s) →
  blocked s → blocked s'.
Proof.
  intros Hh Hq Hr [Ht Hb]. unfold blocked, tokens in *. rewrite Hh, Hq, Hr. split; assumption.
Qed.

Lemma unfulfilled_insert_pending h p o rs r :
  unfulfilled h r → unfulfilled (<[p := {| own := o; st := Pending rs |}]> h) r.
Proof.
  intros (c & Hl & Hn). destruct (decide (p = r)) as [->|Hne].
  - eexists. split; [apply list_lookup_insert_eq; eapply lookup_lt_Some, Hl|].
    intros v. discriminate.
  - exists c. rewrite list_lookup_insert_ne by exact Hne. split; assumption.
Qed.

Lemma count_body_insert_pending h p o rs rs' :
  h !! p = Some {| own := o; st := Pending rs |} →
  count body_pending (<[p := {| own := o; st := Pending rs' |}]> h) = count body_pending h.
Proof.
  intros Hp.
  pose proof (count_insert body_pending _ _ {| own := o; st := Pending rs' |} _ Hp) as Hi.
  assert (body_pending {| own := o; st := Pending rs' |}
          = body_pending {| own := o; st := Pending rs |}) as Hbp by (destruct o; reflexivity).
  rewrite Hbp in Hi. lia.
Qed.

(** Parking a callback on a promise that is not fulfilled. *)
Lemma subscribe_blocked p k s :
  tokens s = 0%nat → (run_reaction k = false ∨ unfulfilled (heap s) p) →
  tokens (exec (subscribe p k) s) = 0%nat
  ∧ log (exec (subscribe p k) s) = log s
  ∧ watch (exec (subscribe p k) s) = watch s
  ∧ (∀ r, unfulfilled (heap s) r → unfulfilled (heap (exec (subscribe p k) s)) r).
Proof.
  intros H0 Hk. unfold exec, subscribe.
  destruct (heap s !! p) as [[o [rs|v|e]]|] eqn:Hp; cbn [snd enqueue modify];
    unfold tokens in *; state_simpl.
  - rewrite (count_body_insert_pending _ _ _ _ _ Hp).
    repeat split; auto. intros r. apply unfulfilled_insert_pending.
  - destruct Hk as [Hk|(c & Hl & Hn)].
    + rewrite count_snoc. cbn [run_job_b]. rewrite Hk. repeat split; auto. lia.
    + rewrite Hp in Hl. injection Hl as <-. exfalso. apply (Hn v). reflexivity.
  - rewrite count_snoc. cbn [run_job_b]. repeat split; auto. lia.
  - repeat split; auto.
Qed.

Lemma runWatch_blocked s :
  blocked s → blocked (exec runWatch s) ∧ starts (log (exec runWatch s)) = starts (log s).
Proof.
  intros [H0 (r & Hr & Hun)].
  destruct (is_dirty (watch s)) eqn:Hd.
  - unfold exec at 1 2. rewrite (runWatch_dirty _ Hd). cbn zeta. rewrite Hr. cbn [snd].
    assert (tokens (started s) = 0%nat) as H0'.
    { unfold tokens, started in *. state_simpl. rewrite count_snoc. cbn. lia. }
    assert (unfulfilled (heap (started s)) r) as Hun' by (apply unfulfilled_app, Hun).
    destruct (subscribe_blocked r (RRun (length (heap s))) (started s) H0' (or_intror Hun'))
      as (Ht & Hl & Hw & Hmono).
    split.
    + split; [exact Ht|]. exists (length (heap s)). split; [reflexivity|].
      apply Hmono. eexists. split; [apply started_fresh|]. intros v. discriminate.
    + unfold set_handle. state_simpl. rewrite Hl. reflexivity.
  - unfold exec. rewrite (runWatch_clean s Hd). cbn [snd]. split.
    + split.
      * unfold tokens in *. state_simpl. rewrite count_snoc. cbn. lia.
      * exists r. split; [exact Hr|]. apply unfulfilled_app, Hun.
    + state_simpl. rewrite starts_cons. reflexivity.
Qed.

Lemma count_zero_head {A} (P : A → bool) x l : count P (x :: l) = 0%nat → P x = false ∧ count P l = 0%nat.
Proof. rewrite count_cons. destruct (P x); [lia|]. split; [reflexivity | lia]. Qed.

Lemma settle_derived_frame d r s :
  heap (exec (settle_derived d r) s) = heap s
  ∧ queue (exec (settle_derived d r) s) = queue s
  ∧ watch (exec (settle_derived d r) s) = watch s
  ∧ log (exec (settle_derived d r) s) = log s.
Proof.
  unfold exec, settle_derived, modify. cbn [snd].
  destruct (derived s !! d) as [[|]|]; repeat split.
Qed.

Lemma tick_blocked s :
  blocked s → blocked (exec tick s) ∧ starts (log (exec tick s)) = starts (log s).
Proof.
  intros Hb. unfold exec, tick. destruct (queue s) as [|j q] eqn:Hq; [split; [exact Hb | reflexivity]|].
  assert (run_job_b j = false ∧ blocked (with_queue q s)) as [Hj Hb0].
  { destruct Hb as [H0 Hh]. unfold tokens in H0. rewrite Hq in H0.
    assert (count run_job_b (j :: q) = 0%nat) as Hc by lia.
    destruct (count_zero_head _ _ _ Hc) as [Hj Hq0].
    split; [exact Hj|]. split; [|exact Hh]. unfold tokens. state_simpl. lia. }
  change (log s) with (log (with_queue q s)).
  generalize dependent (with_queue q s). clear s Hb Hq. intros s Hb.
  destruct j as [r [e|v]]; cbn [run_job].
  - destruct r as [p|p|d|d p|d]; cbn [react_rejected];
      try (split; [eapply blocked_frame; [..|exact Hb]; reflexivity
                  | cbn; rewrite starts_cons; reflexivity]).
    destruct (settle_derived_frame d (inl e) s) as (H1 & H2 & H3 & H4). unfold exec in *.
    split; [eapply blocked_frame; [..|exact Hb]; congruence | rewrite H4; reflexivity].
  - unfold try_catch. destruct r as [p|p|d|d p|d]; cbn [react]; try discriminate.
    + destruct (runWatch_blocked s Hb) as [Hb1 Hs1]. unfold exec in Hb1, Hs1.
      unfold mbind, M_bind. destruct (runWatch s) as [[e|p] s1]; cbn [fst snd] in *.
      * destruct (settle_derived_frame d (inl e) s1) as (H1 & H2 & H3 & H4). unfold exec in *.
        split; [eapply blocked_frame; [..|exact Hb1]; congruence | rewrite H4; exact Hs1].
      * cbn [enqueue modify snd]. split; [|exact Hs1].
        destruct Hb1 as [Ht Hh]. split; [|exact Hh].
        unfold tokens in *. state_simpl. rewrite count_snoc. cbn. lia.
    + destruct Hb as [H0 (r & Hr & Hun)].
      destruct (subscribe_blocked p (RForward d) s H0 (or_introl eq_refl))
        as (Ht & Hl & Hw & Hmono).
      pose proof (subscribe_ok p (RForward d) s) as Hok. unfold exec in *.
      destruct (subscribe p (RForward d) s) as [[e|[]] s1]; cbn [fst snd] in *; [discriminate|].
      split; [|rewrite Hl; reflexivity].
      split; [exact Ht|]. exists r. rewrite Hw. split; [exact Hr | apply Hmono, Hun].
    + destruct (settle_derived_frame d (inr v) s) as (H1 & H2 & H3 & H4). unfold exec in *.
      assert (fst (settle_derived d (inr v) s) = inr tt) as Hok by reflexivity.
      destruct (settle_derived d (inr v) s) as [[e|[]] s1]; cbn [fst snd] in *; [discriminate|].
      split; [eapply blocked_frame; [..|exact Hb]; congruence | rewrite H4; reflexivity].
Qed.

Lemma destroyWatch_unfold s :
  destroyWatch s
  = if is_cleanup (watch s)
    then invokeBare (with_watch (set_f (Int32.and (Watch.f (watch s))
                                          (Int32.not WatchFlagsIsCleanup))) s)
    else cleanupWatch s.
Proof.
  unfold destroyWatch, mbind at 1, M_bind at 1, get, is_cleanup.
  destruct (Int32.truthy _); reflexivity.
Qed.

Lemma destroyWatch_effect s :
  heap (exec destroyWatch s) = heap s
  ∧ queue (exec destroyWatch s) = queue s
  ∧ Watch.running (watch (exec destroyWatch s)) = Watch.running (watch s)
  ∧ subs (exec destroyWatch s) = subs s
  ∧ log (exec destroyWatch s)
    = (if is_cleanup (watch s) then [ETeardown (calls s)]
       else match Watch.destroy (watch s) with
            | Some fn => cleanup_log fn
            | None => []
            end) ++ log s.
Proof.
  unfold exec. rewrite destroyWatch_unfold. destruct (is_cleanup (watch s)).
  - rewrite invokeBare_effect. cbn zeta.
    match goal with |- context [run_actions false ?l ?s0] =>
      destruct (run_actions_bare_frame l s0) as (H1 & H2 & H3 & _ & H5 & H6 & _);
      unfold exec in *; destruct (run_actions false l s0) as [[e|[]] s1]
    end; state_simpl; cbn [Watch.running set_f] in *; repeat split; assumption.
  - destruct (Watch.destroy (watch s)) as [fn|] eqn:Hd.
    + rewrite (cleanupWatch_some _ fn Hd). unfold cleaned, cleanup_log. repeat split.
    + rewrite (cleanupWatch_none _ Hd). repeat split.
Qed.

Lemma destroyWatch_starts s : starts (log (exec destroyWatch s)) = starts (log s).
Proof.
  destruct (destroyWatch_effect s) as (_ & _ & _ & _ & Hl). rewrite Hl.
  apply starts_app_quiet.
  destruct (is_cleanup (watch s)); [repeat constructor|].
  destruct (Watch.destroy (watch s)) as [fn|]; [|constructor].
  unfold cleanup_log. destruct (fn_throws fn); repeat constructor.
Qed.

Lemma step_blocked i s :
  blocked s → blocked (exec (step i) s) ∧ starts (log (exec (step i) s)) = starts (log s).
Proof.
  intros Hb. destruct i as [| | |b r|]; cbn [step].
  - destruct (runWatch_blocked s Hb) as [H1 H2]. unfold exec, mbind, M_bind in *.
    destruct (runWatch s) as [[e|p] s1]; split; assumption.
  - split; [eapply blocked_frame; [..|exact Hb]; reflexivity | reflexivity].
  - apply tick_blocked, Hb.
  - unfold exec, settle_body.
    destruct (heap s !! b) as [[[|n] [rs|v|e]]|] eqn:Hl; try (split; [exact Hb | reflexivity]).
    exfalso. destruct Hb as [H0 _]. unfold tokens in H0.
    pose proof (count_lookup body_pending _ _ _ Hl eq_refl). lia.
  - destruct (destroyWatch_effect s) as (H1 & H2 & H3 & _).
    split; [eapply blocked_frame; [..|exact Hb]; assumption | apply destroyWatch_starts].
Qed.

(** X1: Once the handle cannot be fulfilled any more, nothing the scheduler, the
    environment or the event loop does starts a body of the descriptor
    again. *)
Theorem blocked_forever (inputs : list input) (s : state) :
  blocked s →
  blocked (run_inputs inputs s)
  ∧ starts (log (run_inputs inputs s)) = starts (log s).
Proof.
  revert s. induction inputs as [|i l IH]; intros s Hb; [split; [exact Hb | reflexivity]|].
  cbn. destruct (step_blocked i s Hb) as [Hb1 Hs1].
  destruct (IH _ Hb1) as [Hb2 Hs2]. split; [exact Hb2|].
  etransitivity; [exact Hs2 | exact Hs1].
Qed.

(** X2: A first run whose callback ends with an error hands back a promise
    rejected with that error, and leaves the descriptor blocked. *)
Theorem first_run_throw_blocks (s : state) (e : error) :
  is_dirty (watch s) = true →
  Watch.running (watch s) = None →
  tokens s = 0%nat →
  fst (watchRun (length (heap s)) (started s)) = inl e →
  fst (runWatch s) = inr (length (heap s))
  ∧ heap (exec runWatch s) !! length (heap s) = Some {| own := ORun; st := Rejected e |}
  ∧ Watch.running (watch (exec runWatch s)) = Some (length (heap s))
  ∧ blocked (exec runWatch s).
Proof.
  intros Hd Hr H0 He.
  set (p := length (heap s)) in *.
  destruct (body_sync_frame (acts (Watch.qrl (watch (started s)) (calls (started s))))
              (started s)) as (Hh & Hq & _).
  destruct (watchRun_cases p (started s)) as [(e' & E)|[(v & Hfin & E)|(Hfin & E)]];
    cbn zeta in E.
  2: { pose proof (capture_ok p v (ended (calls (started s))
         (exec (run_actions true (acts (Watch.qrl (watch (started s)) (calls (started s)))))
            (body_entry (exec cleanupWatch (started s)))))) as Hok.
       rewrite <- E, He in Hok. discriminate. }
  2: { rewrite E in He. discriminate. }
  rewrite E in He. injection He as ->.
  set (s1 := exec _ _) in *. clearbody s1.
  assert (runWatch s = (inr p, set_handle p (exec (reject p e) (ended (calls (started s)) s1))))
    as Er.
  { rewrite (runWatch_dirty _ Hd). cbn zeta. rewrite Hr. fold p. rewrite E. reflexivity. }
  assert (heap (ended (calls (started s)) s1) !! p = Some {| own := ORun; st := Pending [] |})
    as Hp.
  { unfold ended. state_simpl. rewrite Hh. apply started_fresh. }
  assert (exec (reject p e) (ended (calls (started s)) s1)
          = with_queue (queue (started s) ++ [])
              (with_heap (<[p := {| own := ORun; st := Rejected e |}]> (heap (started s)))
                 (ended (calls (started s)) s1))) as Ej.
  { unfold exec, reject, settle. rewrite Hp. cbn [snd map settled_as].
    unfold ended. state_simpl. rewrite Hh, Hq. reflexivity. }
  unfold exec at 1 2 3. rewrite Er. cbn [fst snd]. rewrite Ej.
  unfold set_handle. state_simpl.
  assert (<[p := {| own := ORun; st := Rejected e |}]> (heap (started s)) !! p
          = Some {| own := ORun; st := Rejected e |}) as Hrej.
  { apply list_lookup_insert_eq. eapply lookup_lt_Some, started_fresh. }
  repeat split; try assumption.
  - unfold tokens in *. state_simpl. rewrite app_nil_r.
    pose proof (count_insert body_pending _ _ {| own := ORun; st := Rejected e |} _
                  (started_fresh s)) as Hi.
    fold p in Hi. cbn [body_pending] in Hi.
    unfold started in *. state_simpl. rewrite count_snoc in Hi. cbn [body_pending] in Hi. lia.
  - exists p. split; [reflexivity|]. eexists. split; [exact Hrej|]. intros v. discriminate.
Qed.

Lemma blocked_forever_witness :
  let q : QRL := λ _, {| acts := []; fin := Throw (Thrown 1) |} in
  let s := exec runWatch (fresh (mkWatch q 0 6 0)) in
  starts (log (run_inputs [InWrite; InRun; InTick; InTick] s)) = 1%nat.
Proof.
  intros q s.
  assert (blocked s) as Hb.
  { split; [reflexivity|]. exists 0%nat. split; [reflexivity|].
    eexists. split; [reflexivity|]. intros v. discriminate. }
  exact (proj2 (blocked_forever [InWrite; InRun; InTick; InTick] s Hb)).
Defined.

Lemma first_run_throw_blocks_witness :
  let q : QRL := λ _, {| acts := [AWrite]; fin := Throw (Thrown 1) |} in
  let s := fresh (mkWatch q 0 6 0) in
  heap (exec runWatch s) !! 0%nat = Some {| own := ORun; st := Rejected (Thrown 1) |}.
Proof.
  intros q s.
  exact (proj1 (proj2 (first_run_throw_blocks s (Thrown 1) eq_refl eq_refl eq_refl eq_refl))).
Defined.

(** X3: A chained run whose callback ends with an error: the error is the
    rejection of a promise nobody holds, the promise of the run is left as
    it was, and the descriptor is blocked. *)
Theorem chained_run_throw_blocks (s : state) (p : pid) (v : jsval) (q : list job) (e : error) :
  queue s = Job (RRun p) (inr v) :: q →
  tokens s = 1%nat →
  (∃ r, Watch.running (watch s) = Some r ∧ unfulfilled (heap s) r) →
  fst (watchRun p (with_queue q s)) = inl e →
  heap (exec tick s) = heap s
  ∧ queue (exec tick s) = q
  ∧ log (exec tick s) = EUnhandled e :: log (exec (watchRun p) (with_queue q s))
  ∧ blocked (exec tick s).
Proof.
  intros Hq H1 (r & Hr & Hun) He.
  set (s0 := with_queue q s) in *.
  destruct (body_sync_frame (acts (Watch.qrl (watch s0) (calls s0))) s0) as (Hh & Hq0 & Hrun & _).
  destruct (watchRun_cases p s0) as [(e' & E)|[(v' & Hfin & E)|(Hfin & E)]]; cbn zeta in E.
  2: { pose proof (capture_ok p v' (ended (calls s0)
         (exec (run_actions true (acts (Watch.qrl (watch s0) (calls s0))))
            (body_entry (exec cleanupWatch s0))))) as Hok.
       rewrite <- E, He in Hok. discriminate. }
  2: { rewrite E in He. discriminate. }
  rewrite E in He. injection He as ->.
  set (s1 := exec _ _) in *. clearbody s1.
  assert (tick s = (inr tt, with_log (EUnhandled e :: log (ended (calls s0) s1))
                              (ended (calls s0) s1))) as Et.
  { unfold tick. rewrite Hq. fold s0. unfold run_job, try_catch. cbn [react]. rewrite E.
    reflexivity. }
  unfold exec at 1 2 3 5. rewrite Et. unfold exec. rewrite E. cbn [snd].
  unfold ended. state_simpl. rewrite Hh, Hq0. subst s0. state_simpl.
  repeat split.
  - unfold tokens in *. state_simpl. rewrite Hq, count_cons in H1. cbn [run_job_b run_reaction] in H1.
    rewrite Hh, Hq0. lia.
  - exists r. state_simpl. rewrite Hh. split; [congruence | exact Hun].
Qed.

Lemma chained_run_throw_blocks_witness :
  let q : QRL := λ n, match n with
                      | O => {| acts := []; fin := Return VUndefined |}
                      | _ => {| acts := []; fin := Throw (Thrown 2) |}
                      end in
  let s := run_inputs [InRun; InWrite; InRun] (fresh (mkWatch q 0 6 0)) in
  heap (exec tick s) = heap s ∧ blocked (exec tick s).
Proof.
  intros q s.
  assert (∃ r, Watch.running (watch s) = Some r ∧ unfulfilled (heap s) r) as Hh.
  { exists 1%nat. split; [reflexivity|]. eexists. split; [reflexivity|]. intros v. discriminate. }
  destruct (chained_run_throw_blocks s 1%nat VWatch [] (Thrown 2) eq_refl eq_refl Hh eq_refl)
    as (H1 & _ & _ & H4).
  split; [exact H1 | exact H4].
Defined.

(** X4: The promise of a body in flight is rejected: the callback that would
    store the cleanup and resolve the run is never called, and the
    descriptor is blocked. *)
Theorem body_rejection_blocks (s : state) (b : pid) (n : nat) (rs : list reaction) (e : error) :
  heap s !! b = Some {| own := OBody n; st := Pending rs |} →
  tokens s = 1%nat →
  (∃ r, Watch.running (watch s) = Some r ∧ unfulfilled (heap s) r) →
  heap (exec (settle_body b (inl e)) s) = <[b := {| own := OBody n; st := Rejected e |}]> (heap s)
  ∧ queue (exec (settle_body b (inl e)) s) = queue s ++ map (λ k, Job k (inl e)) rs
  ∧ watch (exec (settle_body b (inl e)) s) = watch s
  ∧ blocked (exec (settle_body b (inl e)) s).
Proof.
  intros Hb H1 (r & Hr & Hun).
  assert (settle_body b (inl e) s
          = (inr tt, with_queue (queue s ++ map (λ k, Job k (inl e)) rs)
                       (with_heap (<[b := {| own := OBody n; st := Rejected e |}]> (heap s))
                          (ended n s)))) as E.
  { unfold settle_body. rewrite Hb. unfold mbind, M_bind, emit, modify, settle.
    state_simpl. rewrite Hb. reflexivity. }
  unfold exec. rewrite E. cbn [snd]. unfold ended. state_simpl. repeat split.
  - unfold tokens in *. state_simpl.
    rewrite count_app, count_jobs_rejected.
    pose proof (count_insert body_pending _ _ {| own := OBody n; st := Rejected e |} _ Hb) as Hi.
    cbn [body_pending] in Hi.
    pose proof (count_lookup body_pending _ _ _ Hb eq_refl). lia.
  - exists r. split; [exact Hr|]. destruct Hun as (c & Hl & Hn).
    destruct (decide (b = r)) as [->|Hne].
    + eexists. split; [apply list_lookup_insert_eq; eapply lookup_lt_Some, Hb|].
      intros v. discriminate.
    + exists c. state_simpl. rewrite list_lookup_insert_ne by exact Hne. split; assumption.
Qed.

Lemma body_rejection_blocks_witness :
  let q : QRL := λ _, {| acts := []; fin := Await |} in
  let s := run_inputs [InRun] (fresh (mkWatch q 0 6 0)) in
  blocked (exec (settle_body 1%nat (inl (Thrown 3))) s).
Proof.
  intros q s.
  assert (∃ r, Watch.running (watch s) = Some r ∧ unfulfilled (heap s) r) as Hh.
  { exists 0%nat. split; [reflexivity|]. eexists. split; [reflexivity|]. intros v. discriminate. }
  exact (proj2 (proj2 (proj2
    (body_rejection_blocks s 1%nat 0%nat [RCapture 0%nat] (Thrown 3) eq_refl eq_refl Hh)))).
Defined.

(** ** Subscriptions are replaced by each run *)

Lemma run_actions_subs l s : subs (exec (run_actions true l) s) = tracked (subs s) l.
Proof.
  revert s. induction l as [|a l IH]; intros s; [reflexivity|].
  destruct a as [obj prop|]; cbn [run_actions tracked]; unfold exec, mbind, M_bind.
  - rewrite track_effect. destruct (getProxyTarget obj) as [t|]; [|reflexivity].
    cbn [emit modify].
    match goal with |- context [run_actions true l ?x] => exact (IH x) end.
  - cbn [markDirty modify].
    match goal with |- context [run_actions true l ?x] => exact (IH x) end.
Qed.

Lemma run_actions_trackable l s :
  Forall trackable l → fst (run_actions true l s) = inr tt.
Proof.
  intros H. revert s. induction H as [|a l Ha _ IH]; intros s; [reflexivity|].
  destruct a as [obj prop|]; cbn [run_actions]; unfold mbind, M_bind.
  - rewrite track_effect. cbn in Ha. destruct (getProxyTarget obj) as [t|]; [|contradiction].
    cbn [emit modify]. apply IH.
  - cbn [markDirty modify]. apply IH.
Qed.

Lemma tracked_incl l body e : e ∈ l → e ∈ tracked l body.
Proof.
  revert l. induction body as [|a body IH]; intros l He; [exact He|].
  destruct a as [obj prop|]; cbn [tracked]; [|apply IH, He].
  destruct (getProxyTarget obj) as [t|]; [|exact He].
  apply IH, add_sub_elem. right. exact He.
Qed.

Lemma tracked_sound l body e :
  e ∈ tracked l body →
  e ∈ l ∨ ∃ obj prop target,
            In (ATrack obj prop) body ∧ getProxyTarget obj = Some target
            ∧ e = watch_sub target prop.
Proof.
  revert l. induction body as [|a body IH]; intros l He; [left; exact He|].
  destruct a as [obj prop|]; cbn [tracked] in He.
  - destruct (getProxyTarget obj) as [t|] eqn:Ht; [|left; exact He].
    destruct (IH _ He) as [Hin|(obj' & prop' & t' & Hin & Ht' & ->)].
    + apply add_sub_elem in Hin. destruct Hin as [->|Hin]; [|left; exact Hin].
      right. exists obj, prop, t. split; [left; reflexivity | split; [exact Ht | reflexivity]].
    + right. exists obj', prop', t'. split; [right; exact Hin | split; [exact Ht' | reflexivity]].
  - destruct (IH _ He) as [Hin|(obj' & prop' & t' & Hin & Ht' & ->)]; [left; exact Hin|].
    right. exists obj', prop', t'. split; [right; exact Hin | split; [exact Ht' | reflexivity]].
Qed.

Lemma tracked_complete l body obj prop target :
  Forall trackable body → In (ATrack obj prop) body → getProxyTarget obj = Some target →
  watch_sub target prop ∈ tracked l body.
Proof.
  intros Hall. revert l. induction Hall as [|a body Ha _ IH]; intros l Hin Ht; [destruct Hin|].
  destruct Hin as [->|Hin].
  - cbn [tracked]. rewrite Ht. apply tracked_incl, add_sub_elem. left. reflexivity.
  - destruct a as [obj' prop'|]; cbn [tracked]; [|apply IH; assumption].
    cbn in Ha. destruct (getProxyTarget obj') as [t'|]; [|contradiction].
    apply IH; assumption.
Qed.

Lemma capture_subs p v s : subs (exec (capture p v) s) = subs s.
Proof.
  unfold exec, capture, resolve, mbind, M_bind, settle.
  destruct (isFunction v); cbn [modify mret M_ret]; state_simpl;
    destruct (heap s !! p) as [[o [rs|v'|e']]|]; reflexivity.
Qed.

Lemma watchRun_subs p s :
  subs (exec (watchRun p) s)
  = tracked (filter (λ e, sub_by e ≠ SubWatch) (subs s))
      (acts (Watch.qrl (watch s) (calls s))).
Proof.
  destruct (cleanupWatch_frame s) as (_ & _ & _ & Hs & _).
  assert (subs (exec (run_actions true (acts (Watch.qrl (watch s) (calls s))))
                  (body_entry (exec cleanupWatch s)))
          = tracked (filter (λ e, sub_by e ≠ SubWatch) (subs s))
              (acts (Watch.qrl (watch s) (calls s)))) as H1.
  { rewrite run_actions_subs. unfold body_entry. state_simpl. rewrite Hs. reflexivity. }
  destruct (watchRun_cases p s) as [(e & E)|[(v & Hfin & E)|(Hfin & E)]];
    cbn zeta in E; unfold exec at 1; rewrite E.
  - exact H1.
  - match goal with |- context [capture p v ?x] =>
      change (snd (capture p v x)) with (exec (capture p v) x) end.
    rewrite capture_subs. exact H1.
  - exact H1.
Qed.

(** X5: A run replaces the subscriptions of the descriptor: afterwards the
    descriptor is subscribed only to what the body tracked in this run,
    to all of it when no tracker call was refused, and the subscriptions of
    other subscribers are as they were. *)
Theorem watchRun_replaces_subscriptions (p : pid) (s : state) (e : sub) :
  let body := acts (Watch.qrl (watch s) (calls s)) in
  (sub_by e ≠ SubWatch → (e ∈ subs (exec (watchRun p) s) ↔ e ∈ subs s))
  ∧ (sub_by e = SubWatch → e ∈ subs (exec (watchRun p) s) →
       ∃ obj prop target,
         In (ATrack obj prop) body ∧ getProxyTarget obj = Some target
         ∧ e = watch_sub target prop)
  ∧ (Forall trackable body →
       ∀ obj prop target,
         In (ATrack obj prop) body → getProxyTarget obj = Some target →
         watch_sub target prop ∈ subs (exec (watchRun p) s)).
Proof.
  intros body. rewrite watchRun_subs. fold body. split; [|split].
  - intros Hne. split.
    + intros Hin. destruct (tracked_sound _ _ _ Hin) as [Hf|(obj & prop & t & _ & _ & ->)].
      * apply list_elem_of_filter in Hf. apply Hf.
      * contradiction Hne. reflexivity.
    + intros Hin. apply tracked_incl, list_elem_of_filter. split; assumption.
  - intros He Hin. destruct (tracked_sound _ _ _ Hin) as [Hf|Hex]; [|exact Hex].
    apply list_elem_of_filter in Hf. destruct Hf as [Hne _]. contradiction.
  - intros Hall obj prop t Hin Ht. apply (tracked_complete _ _ obj prop t); assumption.
Qed.

Lemma watchRun_replaces_subscriptions_witness :
  let store := VObject (Some 7%nat) [("count", VNumber 3)] None in
  let q : QRL := λ n, match n with
                      | O => {| acts := [ATrack store (Some (KString "count"))]; fin := Return VUndefined |}
                      | _ => {| acts := [ATrack store (Some (KString "other"))]; fin := Return VUndefined |}
                      end in
  let s := run_inputs [InRun; InWrite] (fresh (mkWatch q 0 6 0)) in
  watch_sub 7 (Some (KString "count")) ∈ subs s
  ∧ watch_sub 7 (Some (KString "other")) ∈ subs (exec (watchRun 1%nat) s).
Proof.
  intros store q s. split; [apply list_elem_of_singleton; reflexivity|].
  destruct (watchRun_replaces_subscriptions 1%nat s (watch_sub 7 (Some (KString "other")))) as (_ & _ & H3).
  assert (Forall trackable (acts (Watch.qrl (watch s) (calls s)))) as Hall.
  { apply Forall_cons_2; [|apply Forall_nil_2]. intros H. discriminate H. }
  apply (H3 Hall store (Some (KString "other"))); [left; reflexivity | reflexivity].
Defined.

(** ** Flags *)

Lemma run_actions_flags t l s n :
  0 ≤ n < 32 → n ≠ 2 →
  Z.testbit (Watch.f (watch (exec (run_actions t l) s))) n = Z.testbit (Watch.f (watch s)) n.
Proof.
  intros Hn Hne. revert s. induction l as [|a l IH]; intros s; [reflexivity|].
  destruct a as [obj prop|]; cbn [run_actions]; unfold exec, mbind, M_bind.
  - destruct t.
    + rewrite track_effect. destruct (getProxyTarget obj) as [tg|]; [|reflexivity].
      cbn [emit modify].
      match goal with |- context [run_actions true l ?x] =>
        etransitivity; [exact (IH x) | reflexivity] end.
    + reflexivity.
  - cbn [markDirty modify].
    match goal with |- context [run_actions t l ?x] =>
      etransitivity; [exact (IH x)|] end.
    state_simpl. cbn [Watch.f set_f].
    change WatchFlagsIsDirty with (2 ^ 2). rewrite set_flag_bit by lia.
    destruct (Z.eqb_spec 2 n); [lia|]. apply orb_false_r.
Qed.

Lemma subscribe_watch p k s : watch (exec (subscribe p k) s) = watch s.
Proof. unfold exec, subscribe. destruct (heap s !! p) as [[o [rs|v|e]]|]; reflexivity. Qed.

Lemma watchRun_flags p s n :
  0 ≤ n < 32 → n ≠ 2 →
  Z.testbit (Watch.f (watch (exec (watchRun p) s))) n = Z.testbit (Watch.f (watch s)) n.
Proof.
  intros Hn Hne. rewrite watchRun_f, run_actions_flags by assumption.
  unfold body_entry. state_simpl.
  destruct (cleanupWatch_frame s) as (_ & _ & _ & _ & _ & _ & _ & Hf & _).
  rewrite Hf. reflexivity.
Qed.

Lemma runWatch_flags s n :
  0 ≤ n < 32 → n ≠ 2 →
  Z.testbit (Watch.f (watch (exec runWatch s))) n = Z.testbit (Watch.f (watch s)) n.
Proof.
  intros Hn Hne. destruct (is_dirty (watch s)) eqn:Hd.
  - unfold exec at 1. rewrite (runWatch_dirty _ Hd). cbn zeta.
    destruct (Watch.running (watch s)) as [r|].
    + cbn [snd]. unfold set_handle. state_simpl. cbn [Watch.f set_running].
      rewrite subscribe_watch. apply started_flags; assumption.
    + pose proof (watchRun_flags (length (heap s)) (started s) n Hn Hne) as Hw.
      unfold exec in Hw.
      destruct (watchRun (length (heap s)) (started s)) as [[e|[]] s3]; cbn [snd] in *;
        unfold set_handle; state_simpl; cbn [Watch.f set_running].
      * unfold reject. rewrite settle_watch, Hw. apply started_flags; assumption.
      * rewrite Hw. apply started_flags; assumption.
  - unfold exec. rewrite (runWatch_clean s Hd). reflexivity.
Qed.

Lemma destroyWatch_flags s n :
  0 ≤ n < 32 → n ≠ 2 → n ≠ 3 →
  Z.testbit (Watch.f (watch (exec destroyWatch s))) n = Z.testbit (Watch.f (watch s)) n.
Proof.
  intros Hn H2 H3. unfold exec. rewrite destroyWatch_unfold. destruct (is_cleanup (watch s)).
  - rewrite invokeBare_effect. cbn zeta.
    match goal with |- context [run_actions false ?l ?s0] =>
      pose proof (run_actions_flags false l s0 n Hn H2) as Hf; unfold exec in Hf;
      destruct (run_actions false l s0) as [[e|[]] s1]
    end; cbn [snd] in *; rewrite Hf; state_simpl; cbn [Watch.f set_f];
      change WatchFlagsIsCleanup with (2 ^ 3); rewrite clear_flag_bit by lia;
      (destruct (Z.eqb_spec 3 n); [lia|]); apply andb_true_r.
  - destruct (cleanupWatch_frame s) as (_ & _ & _ & _ & _ & _ & _ & Hf & _).
    unfold exec in Hf. rewrite Hf. reflexivity.
Qed.

(** X6: Each path touches only its own flag: [runWatch] leaves every flag but
    IS_DIRTY as it was, whatever the body does, and [destroyWatch] every
    flag but IS_CLEANUP and IS_DIRTY; so a cleanup descriptor stays one
    through a run, and IS_EFFECT and IS_WATCH are never changed. *)
Theorem flags_kept (s : state) (n : Z) :
  0 ≤ n < 32 → n ≠ 2 →
  Z.testbit (Watch.f (watch (exec runWatch s))) n = Z.testbit (Watch.f (watch s)) n
  ∧ is_cleanup (watch (exec runWatch s)) = is_cleanup (watch s)
  ∧ (n ≠ 3 →
     Z.testbit (Watch.f (watch (exec destroyWatch s))) n = Z.testbit (Watch.f (watch s)) n).
Proof.
  intros Hn Hne. split; [apply runWatch_flags; assumption|]. split.
  - rewrite !is_cleanup_bit. apply runWatch_flags; lia.
  - intros H3. apply destroyWatch_flags; assumption.
Qed.

Lemma flags_kept_witness :
  let q : QRL := λ _, {| acts := [AWrite]; fin := Return VUndefined |} in
  let s := fresh (mkWatch q 0 14 0) in
  Z.testbit (Watch.f (watch (exec runWatch s))) 1 = true
  ∧ is_cleanup (watch (exec runWatch s)) = true.
Proof.
  intros q s.
  destruct (flags_kept s 1 ltac:(lia) ltac:(lia)) as (H1 & H2 & _).
  split; [rewrite H1; reflexivity | rewrite H2; reflexivity].
Defined.

(** ** A run that completes within the call, and the destroy that follows *)

Lemma watchRun_returns p s v :
  Forall trackable (acts (Watch.qrl (watch s) (calls s))) →
  fin (Watch.qrl (watch s) (calls s)) = Return v →
  watchRun p s
  = capture p v
      (ended (calls s)
         (exec (run_actions true (acts (Watch.qrl (watch s) (calls s))))
            (body_entry (exec cleanupWatch s)))).
Proof.
  intros Hall Hfin. rewrite watchRun_unfold.
  destruct (cleanupWatch_frame s) as (_ & _ & _ & _ & Hc & _ & Hq & _).
  unfold mbind at 1, M_bind at 1. rewrite invokeFn_clearSub. cbn zeta.
  rewrite Hc, Hq, Hfin.
  pose proof (run_actions_trackable _ (body_entry (exec cleanupWatch s)) Hall) as Hok.
  unfold exec at 2.
  destruct (run_actions true _ (body_entry (exec cleanupWatch s))) as [[e|[]] s1];
    [discriminate | reflexivity].
Qed.

Lemma capture_destroy p v s :
  Watch.destroy (watch (exec (capture p v) s))
  = match isFunction v with Some fn => Some fn | None => Watch.destroy (watch s) end.
Proof.
  unfold exec, capture, resolve, mbind, M_bind.
  destruct (isFunction v); cbn [modify mret M_ret];
    match goal with |- context [settle p ?r ?x] =>
      change (snd (settle p r x)) with (exec (settle p r) x) end;
    rewrite settle_watch; reflexivity.
Qed.

Lemma capture_heap p v s : heap (exec (capture p v) s) = heap (exec (settle p (inr VWatch)) s).
Proof.
  unfold exec, capture, resolve, mbind, M_bind, settle.
  destruct (isFunction v); cbn [modify mret M_ret]; state_simpl;
    destruct (heap s !! p) as [[o [rs|v'|e']]|]; reflexivity.
Qed.

(** X7: A first run whose body hands back a plain value completes within the
    call: the promise handed back is fulfilled, and the cleanup slot holds
    what the body handed back when that is a function and nothing
    otherwise.  A destroy that follows calls that function once and does not
    call the body, and a second destroy changes nothing. *)
Theorem sync_run_then_destroy (s : state) (v : jsval) :
  is_dirty (watch s) = true →
  Watch.running (watch s) = None →
  is_cleanup (watch s) = false →
  Forall trackable (acts (Watch.qrl (watch s) (calls s))) →
  fin (Watch.qrl (watch s) (calls s)) = Return v →
  heap (exec runWatch s) !! length (heap s) = Some {| own := ORun; st := Fulfilled VWatch |}
  ∧ Watch.destroy (watch (exec runWatch s)) = isFunction v
  ∧ log (exec destroyWatch (exec runWatch s))
    = match isFunction v with Some fn => cleanup_log fn | None => [] end
      ++ log (exec runWatch s)
  ∧ calls (exec destroyWatch (exec runWatch s)) = calls (exec runWatch s)
  ∧ Watch.destroy (watch (exec destroyWatch (exec runWatch s))) = None
  ∧ exec destroyWatch (exec destroyWatch (exec runWatch s))
    = exec destroyWatch (exec runWatch s).
Proof.
  intros Hd Hr Hc Hall Hfin.
  set (p := length (heap s)).
  set (s1 := exec (run_actions true (acts (Watch.qrl (watch s) (calls s))))
               (body_entry (exec cleanupWatch (started s)))).
  assert (watchRun p (started s) = capture p v (ended (calls s) s1)) as Ew
    by (apply (watchRun_returns p (started s) v Hall Hfin)).
  destruct (body_sync_frame (acts (Watch.qrl (watch s) (calls s))) (started s))
    as (Hh & _). fold s1 in Hh.
  assert (Watch.destroy (watch s1) = None) as Hslot.
  { subst s1.
    destruct (run_actions_frame true (acts (Watch.qrl (watch s) (calls s)))
                (body_entry (exec cleanupWatch (started s))))
      as (_ & _ & _ & _ & _ & Hds & _).
    rewrite Hds. unfold body_entry. state_simpl. apply cleanupWatch_slot. }
  clearbody s1.
  assert (exec runWatch s = set_handle p (exec (capture p v) (ended (calls s) s1))) as Er.
  { unfold exec at 1. rewrite (runWatch_dirty _ Hd). cbn zeta. rewrite Hr. fold p. rewrite Ew.
    pose proof (capture_ok p v (ended (calls s) s1)) as Hok. unfold exec.
    destruct (capture p v (ended (calls s) s1)) as [[e|[]] s3]; [discriminate | reflexivity]. }
  assert (Watch.destroy (watch (exec runWatch s)) = isFunction v) as Hdes.
  { rewrite Er. unfold set_handle. state_simpl. cbn [Watch.destroy set_running].
    rewrite capture_destroy. unfold ended. state_simpl. rewrite Hslot.
    destruct (isFunction v); reflexivity. }
  assert (is_cleanup (watch (exec runWatch s)) = false) as Hc1.
  { rewrite !is_cleanup_bit in *. rewrite runWatch_flags by lia. exact Hc. }
  split; [|split; [exact Hdes|]].
  - pose proof (started_fresh s) as Hfresh. fold p in Hfresh.
    rewrite Er. unfold set_handle. state_simpl. rewrite capture_heap.
    unfold exec, settle, ended. state_simpl. rewrite Hh, Hfresh. cbn [snd].
    state_simpl. rewrite ?Hh. apply list_lookup_insert_eq. eapply lookup_lt_Some, Hfresh.
  - destruct (destroyWatch_effect (exec runWatch s)) as (_ & _ & _ & _ & Hl).
    rewrite Hc1, Hdes in Hl.
    assert (exec destroyWatch (exec runWatch s)
            = match isFunction v with
              | Some fn => cleaned fn (exec runWatch s)
              | None => exec runWatch s
              end) as Ed.
    { unfold exec at 1. rewrite destroyWatch_unfold, Hc1.
      destruct (isFunction v) as [fn|] eqn:Hv.
      - rewrite (cleanupWatch_some _ fn Hdes). reflexivity.
      - rewrite (cleanupWatch_none _ Hdes). reflexivity. }
    split; [exact Hl|]. rewrite Ed.
    destruct (isFunction v) as [fn|] eqn:Hv.
    + split; [reflexivity|]. split; [reflexivity|].
      unfold exec at 1. rewrite destroyWatch_unfold.
      assert (is_cleanup (watch (cleaned fn (exec runWatch s))) = false) as -> by exact Hc1.
      rewrite cleanupWatch_none by reflexivity. reflexivity.
    + split; [reflexivity|]. split; [exact Hdes|].
      unfold exec at 1. rewrite destroyWatch_unfold, Hc1.
      rewrite cleanupWatch_none by exact Hdes. reflexivity.
Qed.

Lemma sync_run_then_destroy_witness :
  let fn := {| fn_id := 5; fn_throws := None; fn_reenters := true |} in
  let q : QRL := λ _, {| acts := []; fin := Return (VFunction fn) |} in
  let s := fresh (mkWatch q 0 6 0) in
  log (exec destroyWatch (exec runWatch s)) = [ECleanup fn] ++ log (exec runWatch s).
Proof.
  intros fn q s.
  exact (proj1 (proj2 (proj2
    (sync_run_then_destroy s (VFunction fn) eq_refl eq_refl eq_refl (Forall_nil_2 _) eq_refl)))).
Defined.

(** ** The run behind a run in flight *)

Lemma capture_calls p v s : calls (exec (capture p v) s) = calls s.
Proof.
  unfold exec, capture, resolve, mbind, M_bind, settle.
  destruct (isFunction v); cbn [modify mret M_ret]; state_simpl;
    destruct (heap s !! p) as [[o [rs|v'|e']]|]; reflexivity.
Qed.

Lemma watchRun_calls p s : calls (exec (watchRun p) s) = S (calls s).
Proof.
  destruct (run_actions_frame true (acts (Watch.qrl (watch s) (calls s)))
              (body_entry (exec cleanupWatch s)))
    as (_ & _ & _ & Hc & _).
  destruct (cleanupWatch_frame s) as (_ & _ & _ & _ & Hc0 & _).
  unfold body_entry at 2 in Hc. state_simpl. rewrite Hc0 in Hc.
  destruct (watchRun_cases p s) as [(e & E)|[(v & Hfin & E)|(Hfin & E)]];
    cbn zeta in E; unfold exec at 1; rewrite E; try exact Hc.
  match goal with |- context [capture p v ?x] =>
    change (snd (capture p v x)) with (exec (capture p v) x) end.
  rewrite capture_calls. exact Hc.
Qed.

Lemma release_next (s : state) (b r p : pid) (n : nat) (v : jsval) :
  queue s = [] →
  heap s !! b = Some {| own := OBody n; st := Pending [RCapture r] |} →
  heap s !! r = Some {| own := ORun; st := Pending [RRun p] |} →
  let s' := run_inputs [InSettle b (inr v); InTick; InTick] s in
  let slot := match isFunction v with Some fn => Some fn | None => Watch.destroy (watch s) end in
  calls s' = S (calls s)
  ∧ ∃ evs,
      log s'
      = evs ++ [EBodyStart (calls s); EClearSub]
          ++ match slot with Some fn => cleanup_log fn | None => [] end
          ++ EBodyEnd n :: log s.
Proof.
  intros Hq Hb Hr s' slot.
  assert (b ≠ r) as Hne by (intros ->; rewrite Hb in Hr; discriminate).
  (* the body settles *)
  set (h1 := <[b := {| own := OBody n; st := Fulfilled v |}]> (heap s)).
  set (s1 := with_queue [Job (RCapture r) (inr v)] (with_heap h1 (ended n s))).
  assert (exec (settle_body b (inr v)) s = s1) as E1.
  { unfold exec, settle_body. rewrite Hb. unfold mbind, M_bind, emit, modify, settle.
    state_simpl. rewrite Hb, Hq. reflexivity. }
  (* first microtask: the result is stored and the run is resolved *)
  set (s1' := with_watch (λ w, match isFunction v with
                                | Some fn => set_destroy (Some fn) w
                                | None => w
                                end) (with_queue [] s1)).
  set (s2 := with_queue [Job (RRun p) (inr VWatch)]
               (with_heap (<[r := {| own := ORun; st := Fulfilled VWatch |}]> h1) s1')).
  assert (h1 !! r = Some {| own := ORun; st := Pending [RRun p] |}) as Hr1.
  { unfold h1. rewrite list_lookup_insert_ne by exact Hne. exact Hr. }
  clearbody h1.
  assert (exec tick s1 = s2) as E2.
  { unfold exec, tick. cbn [queue s1 with_queue]. unfold run_job, try_catch. cbn [react].
    unfold capture, resolve, mbind, M_bind, settle.
    destruct (isFunction v) as [fn|]; cbn [modify mret M_ret]; state_simpl;
      change (heap s1) with h1; rewrite Hr1; reflexivity. }
  (* second microtask: the parked callback runs *)
  set (s2' := with_queue [] s2).
  assert (calls s2' = calls s) as Hc2 by reflexivity.
  assert (Watch.destroy (watch s2') = slot) as Hd2.
  { unfold slot. cbn. destruct (isFunction v); reflexivity. }
  assert (log s2' = EBodyEnd n :: log s) as Hl2 by reflexivity.
  assert (log (exec cleanupWatch s2')
          = match slot with Some fn => cleanup_log fn | None => [] end ++ EBodyEnd n :: log s)
    as Hcl.
  { unfold exec. destruct slot as [fn|] eqn:Hs.
    - rewrite (cleanupWatch_some _ fn Hd2). unfold cleaned, cleanup_log. state_simpl.
      rewrite Hl2. reflexivity.
    - rewrite (cleanupWatch_none _ Hd2). exact Hl2. }
  destruct (watchRun_log p s2') as (evs & Hlog & _). rewrite Hcl, Hc2 in Hlog.
  pose proof (watchRun_calls p s2') as Hcalls. rewrite Hc2 in Hcalls.
  assert (s' = exec tick s2) as E3.
  { unfold s', run_inputs. cbn [fold_left step]. rewrite E1, E2. reflexivity. }
  assert (exec tick s2 = snd (run_job (Job (RRun p) (inr VWatch)) s2')) as E4 by reflexivity.
  rewrite E3, E4. unfold run_job, try_catch. cbn [react]. unfold exec in Hlog, Hcalls.
  destruct (watchRun p s2') as [[e|[]] s3]; cbn [snd emit modify] in *; state_simpl.
  - split; [exact Hcalls|]. exists (EUnhandled e :: evs). rewrite Hlog. reflexivity.
  - split; [exact Hcalls|]. exists evs. exact Hlog.
Qed.

(** X8: A body in flight whose promise fulfils, with the next run parked behind
    the run it belongs to: two microtasks later the next body has been
    started, after the cleanup the first body handed back (or, when it
    handed back no function, the cleanup still in the slot) was called. *)
Theorem fulfilled_body_starts_next_run (s : state) (b r p : pid) (n : nat) (v : jsval) :
  queue s = [] →
  heap s !! b = Some {| own := OBody n; st := Pending [RCapture r] |} →
  heap s !! r = Some {| own := ORun; st := Pending [RRun p] |} →
  let s' := run_inputs [InSettle b (inr v); InTick; InTick] s in
  let slot := match isFunction v with Some fn => Some fn | None => Watch.destroy (watch s) end in
  calls s' = S (calls s)
  ∧ ∃ evs,
      log s'
      = evs ++ [EBodyStart (calls s); EClearSub]
          ++ match slot with Some fn => cleanup_log fn | None => [] end
          ++ EBodyEnd n :: log s.
Proof.
  intros Hq Hb Hr s' slot.
  destruct (release_next s b r p n v Hq Hb Hr) as (Hcalls & evs & Hlog).
  split; [exact Hcalls|]. exists evs. exact Hlog.
Qed.

Lemma fulfilled_body_starts_next_run_witness :
  let fn := {| fn_id := 5; fn_throws := None; fn_reenters := true |} in
  let q : QRL := λ _, {| acts := [AWrite]; fin := Await |} in
  let s := run_inputs [InRun; InRun] (fresh (mkWatch q 0 6 0)) in
  calls (run_inputs [InSettle 1%nat (inr (VFunction fn)); InTick; InTick] s) = 2%nat.
Proof.
  intros fn q s.
  exact (proj1 (fulfilled_body_starts_next_run s 1%nat 0%nat 2%nat 0%nat (VFunction fn)
                  eq_refl eq_refl eq_refl)).
Defined.

(** ** The first run of [useWatchQrl] and setup *)

Lemma settle_empty p r o s :
  heap s !! p = Some {| own := o; st := Pending [] |} →
  heap (exec (settle p r) s) !! p = Some {| own := o; st := settled_as r |}
  ∧ queue (exec (settle p r) s) = queue s
  ∧ derived (exec (settle p r) s) = derived s
  ∧ calls (exec (settle p r) s) = calls s.
Proof.
  intros Hp. unfold exec, settle. rewrite Hp. state_simpl. cbn [map].
  rewrite app_nil_r. repeat split.
  apply list_lookup_insert_eq. apply lookup_lt_is_Some. eexists. exact Hp.
Qed.

Lemma capture_empty p v o s :
  heap s !! p = Some {| own := o; st := Pending [] |} →
  heap (exec (capture p v) s) !! p = Some {| own := o; st := Fulfilled VWatch |}
  ∧ queue (exec (capture p v) s) = queue s
  ∧ derived (exec (capture p v) s) = derived s.
Proof.
  intros Hp. unfold exec, capture, resolve, mbind, M_bind.
  destruct (isFunction v); cbn [modify mret M_ret];
    match goal with |- context [settle p ?r ?x] =>
      change (snd (settle p r x)) with (exec (settle p r) x);
      destruct (settle_empty p r o x Hp) as (H1 & H2 & H3 & _)
    end; repeat split; assumption.
Qed.

(** A first run whose body does not hand back a promise is over when
    [runWatch] hands back: the promise it hands back is settled. *)
Lemma runWatch_sync s :
  is_dirty (watch s) = true →
  Watch.running (watch s) = None →
  fin (Watch.qrl (watch s) (calls s)) ≠ Await →
  ∃ r, fst (runWatch s) = inr (length (heap s))
       ∧ heap (exec runWatch s) !! length (heap s)
         = Some {| own := ORun; st := settled_as r |}
       ∧ queue (exec runWatch s) = queue s
       ∧ derived (exec runWatch s) = derived s
       ∧ calls (exec runWatch s) = S (calls s).
Proof.
  intros Hd Hrun Hfin. unfold exec. rewrite (runWatch_dirty s Hd), Hrun. cbn zeta.
  set (p := length (heap s)).
  pose proof (started_fresh s) as Hfresh. fold p in Hfresh.
  pose proof (watchRun_calls p (started s)) as Hcalls.
  change (calls (started s)) with (calls s) in Hcalls.
  destruct (run_actions_frame true (acts (Watch.qrl (watch (started s)) (calls (started s))))
              (body_entry (exec cleanupWatch (started s))))
    as (Hh & Hdv & Hq & _).
  destruct (cleanupWatch_frame (started s)) as (Hh0 & Hdv0 & Hq0 & _).
  unfold body_entry at 2 in Hh. unfold body_entry at 2 in Hdv. unfold body_entry at 2 in Hq.
  state_simpl. rewrite Hh0 in Hh. rewrite Hdv0 in Hdv. rewrite Hq0 in Hq.
  change (derived (started s)) with (derived s) in Hdv.
  change (queue (started s)) with (queue s) in Hq.
  unfold exec in Hcalls.
  destruct (watchRun_cases p (started s)) as [(e & E)|[(v & Hv & E)|(Ha & E)]];
    cbn zeta in E.
  - rewrite E in *. cbn [snd] in Hcalls. cbv beta iota.
    match goal with |- context [exec (reject p e) ?x] =>
      destruct (settle_empty p (inl e) ORun x) as (H1 & H2 & H3 & H4) end.
    { state_simpl. rewrite Hh. exact Hfresh. }
    exists (inl e). unfold set_handle, reject. state_simpl.
    rewrite H1, H2, H3, H4. state_simpl. rewrite Hq, Hdv. repeat split. exact Hcalls.
  - match type of E with _ = capture p v ?x =>
      destruct (capture_empty p v ORun x) as (H1 & H2 & H3);
      [state_simpl; rewrite Hh; exact Hfresh|];
      pose proof (capture_ok p v x) as Hok
    end.
    rewrite E in *. unfold exec in *.
    match goal with |- context [capture p v ?x] => destruct (capture p v x) as [y s3] end.
    cbn [fst snd] in *. subst y. exists (inr VWatch). unfold set_handle. state_simpl.
    rewrite H1, H2, H3. state_simpl. rewrite Hq, Hdv. repeat split. exact Hcalls.
  - exfalso. apply Hfin. exact Ha.
Qed.

(** X9: [useWatchQrl] on the call that creates the descriptor, with nothing else
    queued and a body that does not hand back a promise: the first microtask
    runs the body once, and the promise setup waits on is settled after the
    third microtask and not before. *)
Theorem useWatchQrl_sync_setup (qrl : QRL) (opts : option UseEffectOptions)
    (c : component) (s : state) :
  scope_watch c = false →
  queue s = [] →
  fin (qrl (calls s)) ≠ Await →
  let d := length (derived s) in
  let s0 := exec (useWatchQrl qrl opts c) s in
  calls (run_inputs [InTick] s0) = S (calls s)
  ∧ is_settled (run_inputs [InTick; InTick] s0) d = false
  ∧ is_settled (run_inputs [InTick; InTick; InTick] s0) d = true
  ∧ calls (run_inputs [InTick; InTick; InTick] s0) = S (calls s)
  ∧ queue (run_inputs [InTick; InTick; InTick] s0) = [].
Proof.
  intros Hc Hq Hfin d s0.
  assert (s0 = registered qrl c s) as E0.
  { unfold s0, exec. rewrite (useWatchQrl_effect _ _ _ _ Hc). reflexivity. }
  set (sA := with_queue [] (registered qrl c s)).
  assert (exec tick s0 = exec (run_job (Job (RDeferred d) (inr VUndefined))) sA) as E1.
  { rewrite E0. unfold exec, tick, registered. state_simpl. rewrite Hq. reflexivity. }
  destruct (runWatch_sync sA) as (r & Hp & Hh & HqB & HdB & HcB);
    [reflexivity | reflexivity | exact Hfin |].
  change (heap sA) with (heap s) in *. change (queue sA) with (@nil job) in HqB.
  change (derived sA) with (derived s ++ [DPending]) in HdB.
  change (calls sA) with (calls s) in HcB.
  set (p := length (heap s)) in *.
  unfold exec in Hh, HqB, HdB, HcB.
  set (sC := exec (run_job (Job (RDeferred d) (inr VUndefined))) sA) in *.
  assert (heap sC !! p = Some {| own := ORun; st := settled_as r |}
          ∧ queue sC = [Job (RAdopt d p) (inr VUndefined)]
          ∧ derived sC = derived s ++ [DPending]
          ∧ calls sC = S (calls s)) as (HhC & HqC & HdC & HcC).
  { unfold sC, exec, run_job, try_catch. cbn [react]. unfold mbind, M_bind.
    destruct (runWatch sA) as [x sB]. cbn [fst snd] in *. subst x.
    unfold enqueue, modify. state_simpl. rewrite HqB. repeat split; assumption. }
  clearbody sC. clear Hh HqB HdB HcB Hp.
  remember (exec tick sC) as sD eqn:ED.
  assert (queue sD = [Job (RForward d) r]
          ∧ derived sD = derived s ++ [DPending]
          ∧ calls sD = S (calls s)) as (HqD & HdD & HcD).
  { rewrite ED. unfold exec, tick. rewrite HqC. unfold run_job, try_catch. cbn [react].
    unfold subscribe. state_simpl. rewrite HhC.
    destruct r as [e|v]; cbn [settled_as]; unfold enqueue, modify; state_simpl;
      repeat split; assumption. }
  assert ((derived s ++ [DPending]) !! d = Some DPending) as Hd.
  { apply list_lookup_middle. reflexivity. }
  remember (exec tick sD) as sE eqn:EE.
  assert (is_settled sE d = true ∧ calls sE = S (calls s) ∧ queue sE = [])
    as (HsE & HcE & HqE).
  { rewrite EE. unfold exec, tick. rewrite HqD. unfold run_job, is_settled.
    destruct r as [e|v]; cbn [react react_rejected try_catch];
      unfold try_catch, settle_derived, modify; state_simpl; rewrite HdD, Hd; state_simpl;
      (rewrite list_lookup_insert_eq
         by (rewrite length_app; cbn [length]; unfold d; lia));
      repeat split; assumption. }
  unfold run_inputs. cbn [fold_left step]. rewrite E1, <- ED, <- EE.
  split; [exact HcC|]. split; [|split; [exact HsE|split; [exact HcE|exact HqE]]].
  unfold is_settled. rewrite HdD, Hd. reflexivity.
Qed.

Lemma useWatchQrl_sync_setup_witness :
  let c := {| scope_watch := false; scope_i := 0; hostElement := 0; isServer := true;
              el_watches := []; waitOn := []; resumeQrls := []; visibleQrls := [];
              qO := None |} in
  let q : QRL := λ _, {| acts := [AWrite]; fin := Throw (Thrown 7) |} in
  let s := fresh (mkWatch q 0 0 0) in
  is_settled (run_inputs [InTick; InTick; InTick] (exec (useWatchQrl q None c) s)) 0 = true.
Proof.
  intros c q s.
  assert (fin (q (calls s)) ≠ Await) as Hfin by (intros H; discriminate H).
  exact (proj1 (proj2 (proj2 (useWatchQrl_sync_setup q None c s eq_refl eq_refl Hfin)))).
Defined.

(** ** Effects are created clean *)

Lemma destroyWatch_idle s :
  is_cleanup (watch s) = false → Watch.destroy (watch s) = None →
  exec destroyWatch s = s.
Proof.
  intros Hc Hd. unfold exec. rewrite destroyWatch_unfold, Hc, (cleanupWatch_none _ Hd).
  reflexivity.
Qed.

Lemma idle_inputs (inputs : list input) (s : state) :
  Forall (λ i, i = InRun ∨ i = InDestroy) inputs →
  is_dirty (watch s) = false → is_cleanup (watch s) = false →
  Watch.destroy (watch s) = None →
  watch (run_inputs inputs s) = watch s
  ∧ calls (run_inputs inputs s) = calls s
  ∧ queue (run_inputs inputs s) = queue s
  ∧ starts (log (run_inputs inputs s)) = starts (log s).
Proof.
  intros Hall. revert s. induction Hall as [|i l Hi _ IH]; intros s Hd Hc Hs.
  - repeat split.
  - unfold run_inputs in *. cbn [fold_left].
    assert (watch (exec (step i) s) = watch s
            ∧ calls (exec (step i) s) = calls s
            ∧ queue (exec (step i) s) = queue s
            ∧ starts (log (exec (step i) s)) = starts (log s)) as (Hw & Hn & Hq & Hl).
    { destruct Hi as [-> | ->]; cbn [step].
      - unfold exec, mbind, M_bind. rewrite (runWatch_clean s Hd). repeat split.
      - rewrite (destroyWatch_idle s Hc Hs). repeat split. }
    destruct (IH (exec (step i) s)) as (H1 & H2 & H3 & H4); try (rewrite Hw; assumption).
    rewrite H1, H2, H3, H4. repeat split; assumption.
Qed.

(** X10: The descriptor [useClientEffectQrl] creates is not dirty: however often
    it is run or destroyed before something marks it dirty, the body is not
    called, nothing is queued and the descriptor stays as it was created. *)
Theorem client_effect_created_clean (qrl : QRL) (opts : option UseEffectOptions)
    (c : component) (s : state) (inputs : list input) :
  scope_watch c = false →
  Forall (λ i, i = InRun ∨ i = InDestroy) inputs →
  let s' := run_inputs inputs (exec (useClientEffectQrl qrl opts c) s) in
  watch s' = effect_of qrl c
  ∧ calls s' = calls s
  ∧ queue s' = queue s
  ∧ starts (log s') = starts (log s).
Proof.
  intros Hc Hall s'. subst s'. unfold exec.
  rewrite (useClientEffectQrl_effect _ _ _ _ Hc). cbn [snd].
  destruct (idle_inputs inputs (with_watch (λ _, effect_of qrl c) s) Hall)
    as (H1 & H2 & H3 & H4); try reflexivity.
  repeat split; assumption.
Qed.

Lemma client_effect_created_clean_witness :
  let c := {| scope_watch := false; scope_i := 3; hostElement := 7; isServer := false;
              el_watches := []; waitOn := []; resumeQrls := []; visibleQrls := [];
              qO := Some [] |} in
  let q : QRL := λ _, {| acts := [AWrite]; fin := Return VUndefined |} in
  let s := fresh (mkWatch q 0 0 0) in
  calls (run_inputs [InRun; InDestroy; InRun] (exec (useClientEffectQrl q None c) s)) = 0%nat.
Proof.
  intros c q s.
  assert (Forall (λ i, i = InRun ∨ i = InDestroy) [InRun; InDestroy; InRun]) as Hall.
  { repeat (apply Forall_cons_2; [auto|]). apply Forall_nil_2. }
  exact (proj1 (proj2 (client_effect_created_clean q None c s _ eq_refl Hall))).
Defined.

(** ** A call site registers once *)

Lemma scope_useRunWatch w r c : scope_watch (useRunWatch w r c) = scope_watch c.
Proof. destruct r as [[|]|]; reflexivity. Qed.

Lemma useWatchQrl_marks qrl opts c s c' :
  fst (useWatchQrl qrl opts c s) = inr c' → scope_watch c' = true.
Proof.
  destruct (scope_watch c) eqn:Hc.
  - unfold useWatchQrl. rewrite Hc. intros [= <-]. exact Hc.
  - rewrite (useWatchQrl_effect _ _ _ _ Hc). cbn [fst]. intros [= <-].
    cbn zeta. destruct (isServer c); [rewrite scope_useRunWatch|]; reflexivity.
Qed.

Lemma useClientEffectQrl_marks qrl opts c s c' :
  fst (useClientEffectQrl qrl opts c s) = inr c' → scope_watch c' = true.
Proof.
  destruct (scope_watch c) eqn:Hc.
  - unfold useClientEffectQrl. rewrite Hc. intros [= <-]. exact Hc.
  - rewrite (useClientEffectQrl_effect _ _ _ _ Hc). cbn [fst]. intros [= <-].
    change (scope_watch (useRunWatch (effect_of qrl c)
                           (Some (default RunVisible (opts ≫= run)))
                           (push_watch (effect_of qrl c) (setWatch c))) = true).
    rewrite scope_useRunWatch. reflexivity.
Qed.

(** X11: Once either registrar has been through a call site, a later call of
    either registrar at that site, with whatever function and options,
    creates no descriptor, queues no run, registers no handler and leaves the
    machine as it is. *)
Theorem registrars_register_once (qrl qrl' : QRL) (opts opts' : option UseEffectOptions)
    (c c' : component) (s s' : state) :
  fst (useWatchQrl qrl opts c s) = inr c' ∨ fst (useClientEffectQrl qrl opts c s) = inr c' →
  useWatchQrl qrl' opts' c' s' = (inr c', s')
  ∧ useClientEffectQrl qrl' opts' c' s' = (inr c', s').
Proof.
  intros H.
  assert (scope_watch c' = true) as Hc'.
  { destruct H as [H|H]; [eapply useWatchQrl_marks | eapply useClientEffectQrl_marks];
      exact H. }
  unfold useWatchQrl, useClientEffectQrl. rewrite Hc'. split; reflexivity.
Qed.

Lemma registrars_register_once_witness :
  let c := {| scope_watch := false; scope_i := 3; hostElement := 7; isServer := true;
              el_watches := []; waitOn := []; resumeQrls := []; visibleQrls := [];
              qO := None |} in
  let q : QRL := λ _, {| acts := []; fin := Return VUndefined |} in
  let s := fresh (mkWatch q 0 0 0) in
  let c' := useRunWatch (watch_of q c) (Some RunLoad)
              (useWaitOn 0%nat (push_watch (watch_of q c) (setWatch c))) in
  let s' := exec (useWatchQrl q (Some {| run := Some RunLoad |}) c) s in
  useWatchQrl q None c' s' = (inr c', s').
Proof.
  intros c q s c' s'.
  exact (proj1 (registrars_register_once q q (Some {| run := Some RunLoad |}) None c c' s s'
                  (or_introl eq_refl))).
Defined.

(** ** Handlers capture registered descriptors *)

Lemma handlers_resolve_push w c :
  handlers_resolve c → handlers_resolve (push_watch w (setWatch c)).
Proof.
  intros H h Hh. destruct (H h Hh) as (w0 & Hw0 & E).
  exists w0. split; [|exact E]. cbn [push_watch setWatch el_watches].
  apply elem_of_app. left. exact Hw0.
Qed.

Lemma handlers_resolve_useRunWatch w r c :
  w ∈ el_watches c → handlers_resolve c → handlers_resolve (useRunWatch w r c).
Proof.
  intros Hw H h Hh. destruct r as [[|]|]; cbn [useRunWatch] in *.
  - cbn [useVisibleQrl resumeQrls visibleQrls el_watches] in *.
    rewrite app_assoc in Hh. apply elem_of_app in Hh as [Hh|Hh]; [exact (H h Hh)|].
    apply list_elem_of_singleton in Hh. subst h. exists w. split; [exact Hw | reflexivity].
  - cbn [useResumeQrl resumeQrls visibleQrls el_watches] in *.
    apply elem_of_app in Hh as [Hh|Hh].
    + apply elem_of_app in Hh as [Hh|Hh].
      * apply H. apply elem_of_app. left. exact Hh.
      * apply list_elem_of_singleton in Hh. subst h. exists w. split; [exact Hw | reflexivity].
    + apply H. apply elem_of_app. right. exact Hh.
  - exact (H h Hh).
Qed.

(** X12: Both registrars keep the handlers resolvable: after a call, every
    handler registered for resume or for visibility, the one the call may
    have added included, captures a descriptor that is among the watches of
    the element. *)
Theorem registrars_keep_handlers_resolvable (qrl : QRL) (opts : option UseEffectOptions)
    (c c' : component) (s : state) :
  handlers_resolve c →
  fst (useWatchQrl qrl opts c s) = inr c' ∨ fst (useClientEffectQrl qrl opts c s) = inr c' →
  handlers_resolve c'.
Proof.
  intros H Hc'. destruct (scope_watch c) eqn:Hc.
  - unfold useWatchQrl, useClientEffectQrl in Hc'. rewrite Hc in Hc'.
    destruct Hc' as [[= <-]|[= <-]]; exact H.
  - rewrite (useWatchQrl_effect _ _ _ _ Hc), (useClientEffectQrl_effect _ _ _ _ Hc) in Hc'.
    cbn [fst] in Hc'. destruct Hc' as [[= <-]|[= <-]].
    + assert (handlers_resolve (useWaitOn (length (derived s))
                                  (push_watch (watch_of qrl c) (setWatch c)))) as H1.
      { exact (handlers_resolve_push _ _ H). }
      destruct (isServer c); [|exact H1].
      apply handlers_resolve_useRunWatch; [|exact H1].
      cbn [useWaitOn push_watch el_watches]. apply elem_of_app. right.
      apply list_elem_of_singleton. reflexivity.
    + assert (handlers_resolve (useRunWatch (effect_of qrl c)
                                  (Some (default RunVisible (opts ≫= run)))
                                  (push_watch (effect_of qrl c) (setWatch c)))) as H1.
      { apply handlers_resolve_useRunWatch; [|exact (handlers_resolve_push _ _ H)].
        cbn [push_watch el_watches]. apply elem_of_app. right.
        apply list_elem_of_singleton. reflexivity. }
      exact H1.
Qed.

Lemma registrars_keep_handlers_resolvable_witness :
  let c := {| scope_watch := false; scope_i := 3; hostElement := 7; isServer := false;
              el_watches := []; waitOn := []; resumeQrls := []; visibleQrls := [];
              qO := None |} in
  let q : QRL := λ _, {| acts := []; fin := Return VUndefined |} in
  let s := fresh (mkWatch q 0 0 0) in
  handlers_resolve
    (observe (useRunWatch (effect_of q c) (Some RunVisible)
                (push_watch (effect_of q c) (setWatch c)))).
Proof.
  intros c q s.
  assert (handlers_resolve c) as H0.
  { intros h Hh. cbn in Hh. apply elem_of_nil in Hh. destruct Hh. }
  exact (registrars_keep_handlers_resolvable q None c _ s H0 (or_intror eq_refl)).
Defined.

(** ** Mount registrars *)

Lemma mount_marks (invoke : QRL → state → pid * state) (mountQrl : QRL)
    (c c' : component) (s : state) :
  fst (useServerMountQrl invoke mountQrl c s) = inr c'
  ∨ fst (useClientMountQrl invoke mountQrl c s) = inr c'
  ∨ fst (useMountQrl invoke mountQrl c s) = inr c' →
  scope_watch c' = true.
Proof.
  unfold useServerMountQrl, useClientMountQrl, useMountQrl.
  destruct (scope_watch c) eqn:Hc, (isServer c), (invoke mountQrl s) as [p s1];
    cbn [negb fst]; intros [[= <-]|[[= <-]|[= <-]]]; first [exact Hc | reflexivity].
Qed.

(** X13: The environment gate of the mount registrars, on the call that marks
    the call site: on the server [useServerMountQrl] does what [useMountQrl]
    does, and [useClientMountQrl] invokes nothing, waits on nothing and only
    marks the site; on the client the two swap.  What [useMountQrl] makes
    setup wait on is the promise the invocation handed back.  After any of
    the three, a later call of any of them at that site invokes nothing and
    changes nothing. *)
Theorem mount_environment_gate (invoke : QRL → state → pid * state) (mountQrl : QRL)
    (c : component) (s : state) :
  scope_watch c = false →
  (useMountQrl invoke mountQrl c s
   = (inr (useWaitOn (fst (invoke mountQrl s)) (setWatch c)), snd (invoke mountQrl s))
   ∧ useServerMountQrl invoke mountQrl c s
     = (if isServer c then useMountQrl invoke mountQrl c s else (inr (setWatch c), s))
   ∧ useClientMountQrl invoke mountQrl c s
     = (if isServer c then (inr (setWatch c), s) else useMountQrl invoke mountQrl c s))
  ∧ ∀ c', fst (useServerMountQrl invoke mountQrl c s) = inr c'
          ∨ fst (useClientMountQrl invoke mountQrl c s) = inr c'
          ∨ fst (useMountQrl invoke mountQrl c s) = inr c' →
          ∀ mountQrl' s',
            useServerMountQrl invoke mountQrl' c' s' = (inr c', s')
            ∧ useClientMountQrl invoke mountQrl' c' s' = (inr c', s')
            ∧ useMountQrl invoke mountQrl' c' s' = (inr c', s').
Proof.
  intros Hc. split.
  - unfold useMountQrl, useServerMountQrl, useClientMountQrl. rewrite Hc.
    destruct (isServer c), (invoke mountQrl s) as [p s1]; repeat split.
  - intros c' H mountQrl' s'. pose proof (mount_marks _ _ _ _ _ H) as Hc'.
    unfold useMountQrl, useServerMountQrl, useClientMountQrl. rewrite Hc'.
    repeat split.
Qed.

Lemma mount_environment_gate_witness :
  let c := {| scope_watch := false; scope_i := 0; hostElement := 0; isServer := false;
              el_watches := []; waitOn := [4%nat]; resumeQrls := []; visibleQrls := [];
              qO := None |} in
  let q : QRL := λ _, {| acts := []; fin := Return VUndefined |} in
  let s := fresh (mkWatch q 0 0 0) in
  let invoke : QRL → state → pid * state :=
    λ _ s, (length (derived s), with_derived (derived s ++ [DPending]) s) in
  useServerMountQrl invoke q c s = (inr (setWatch c), s)
  ∧ useClientMountQrl invoke q c s
    = (inr (useWaitOn 0%nat (setWatch c)), with_derived [DPending] s).
Proof.
  intros c q s invoke.
  destruct (mount_environment_gate invoke q c s eq_refl) as ((E1 & E2 & E3) & _).
  split; [exact E2|]. rewrite E3. exact E1.
Defined.

(** ** Teardown has no tracker *)

Lemma run_actions_bare_track pre obj prop rest s :
  Forall (λ a, a = AWrite) pre →
  fst (run_actions false (pre ++ ATrack obj prop :: rest) s)
  = inl (TypeError "track is not a function").
Proof.
  intros Hpre. revert s. induction Hpre as [|a pre -> _ IH]; intros s.
  - reflexivity.
  - cbn [app run_actions]. unfold mbind, M_bind. cbn [markDirty modify]. apply IH.
Qed.

(** X14: A descriptor flagged for cleanup is torn down by calling its function
    with no argument: when the function reaches a call of the tracker,
    [destroyWatch] fails with a type error, the flag has been cleared all the
    same, and no subscription has been recorded. *)
Theorem teardown_has_no_tracker (s : state) (pre rest : list action)
    (obj : jsval) (prop : option key) :
  is_cleanup (watch s) = true →
  acts (Watch.qrl (watch s) (calls s)) = pre ++ ATrack obj prop :: rest →
  Forall (λ a, a = AWrite) pre →
  fst (destroyWatch s) = inl (TypeError "track is not a function")
  ∧ subs (exec destroyWatch s) = subs s
  ∧ log (exec destroyWatch s) = ETeardown (calls s) :: log s.
Proof.
  intros Hc Hacts Hpre. unfold exec. rewrite destroyWatch_unfold, Hc, invokeBare_effect.
  cbn zeta. state_simpl. cbn [Watch.qrl set_f]. rewrite Hacts.
  match goal with |- context [run_actions false ?l ?s0] =>
    pose proof (run_actions_bare_track pre obj prop rest s0 Hpre) as He;
    destruct (run_actions_bare_frame l s0) as (_ & _ & _ & _ & Hs & Hl & _);
    unfold exec in *; destruct (run_actions false l s0) as [[e|[]] s1]
  end; cbn [fst snd] in *; [|discriminate He].
  split; [exact He|]. split; assumption.
Qed.

Lemma teardown_has_no_tracker_witness :
  let q : QRL := λ _, {| acts := [AWrite; ATrack (VObject (Some 1%nat) [] None) None];
                         fin := Return VUndefined |} in
  let s := fresh (mkWatch q 0 10 0) in
  fst (destroyWatch s) = inl (TypeError "track is not a function").
Proof.
  intros q s.
  assert (Forall (λ a, a = AWrite) [AWrite]) as Hpre.
  { apply Forall_cons_2; [reflexivity | apply Forall_nil_2]. }
  exact (proj1 (teardown_has_no_tracker s [AWrite] [] (VObject (Some 1%nat) [] None) None
                  eq_refl eq_refl Hpre)).
Defined.

(** ** A write while a body is in flight *)

(** X15: A body is in flight and nothing is queued.  A write marks the
    descriptor dirty and the scheduler runs it: no body starts while the
    first is in flight, and once the first body's promise fulfils the body
    is started exactly once more, two microtasks later, after the cleanup
    of the first run. *)
Theorem write_in_flight_reruns (s : state) (b r : pid) (n : nat) (v : jsval) :
  queue s = [] →
  Watch.running (watch s) = Some r →
  heap s !! r = Some {| own := ORun; st := Pending [] |} →
  heap s !! b = Some {| own := OBody n; st := Pending [RCapture r] |} →
  let s1 := run_inputs [InWrite; InRun] s in
  let s' := run_inputs [InSettle b (inr v); InTick; InTick] s1 in
  let slot := match isFunction v with Some fn => Some fn | None => Watch.destroy (watch s) end in
  log s1 = log s
  ∧ calls s1 = calls s
  ∧ calls s' = S (calls s)
  ∧ ∃ evs,
      log s'
      = evs ++ [EBodyStart (calls s); EClearSub]
          ++ match slot with Some fn => cleanup_log fn | None => [] end
          ++ EBodyEnd n :: log s.
Proof.
  intros Hq Hrun Hr Hb s1 s' slot.
  assert (b ≠ r) as Hne by (intros ->; rewrite Hb in Hr; discriminate).
  set (p := length (heap s)).
  set (sw := exec markDirty s).
  assert (is_dirty (watch sw) = true) as Hd by apply is_dirty_markDirty.
  assert (heap sw = heap s ∧ queue sw = queue s ∧ calls sw = calls s ∧ log sw = log s
          ∧ Watch.running (watch sw) = Watch.running (watch s)
          ∧ Watch.destroy (watch sw) = Watch.destroy (watch s)) as (Hh & Hqw & Hc & Hl & Hrw & Hdw).
  { repeat split. }
  assert (s1 = set_handle p (exec (subscribe r (RRun p)) (started sw))) as E1.
  { unfold s1, run_inputs. cbn [fold_left step]. fold sw.
    unfold exec at 1. unfold mbind, M_bind.
    rewrite (runWatch_dirty sw Hd), Hrw, Hrun, Hh. reflexivity. }
  assert (heap (started sw) !! r = Some {| own := ORun; st := Pending [] |}) as Hr'.
  { unfold started. state_simpl. rewrite Hh. apply lookup_app_l_Some. exact Hr. }
  assert (exec (subscribe r (RRun p)) (started sw)
          = with_heap (<[r := {| own := ORun; st := Pending [RRun p] |}]> (heap (started sw)))
              (started sw)) as E2.
  { unfold exec, subscribe. rewrite Hr'. reflexivity. }
  rewrite E2 in E1.
  assert (queue s1 = []) as Hq1 by (rewrite E1; exact Hq).
  assert (heap s1 !! b = Some {| own := OBody n; st := Pending [RCapture r] |}) as Hb1.
  { rewrite E1. unfold set_handle. state_simpl.
    rewrite list_lookup_insert_ne by (intros E; apply Hne; symmetry; exact E).
    unfold started. state_simpl. rewrite Hh. apply lookup_app_l_Some. exact Hb. }
  assert (heap s1 !! r = Some {| own := ORun; st := Pending [RRun p] |}) as Hr1.
  { rewrite E1. unfold set_handle. state_simpl.
    apply list_lookup_insert_eq. apply lookup_lt_is_Some. eexists. exact Hr'. }
  assert (log s1 = log s ∧ calls s1 = calls s
          ∧ Watch.destroy (watch s1) = Watch.destroy (watch s)) as (Hl1 & Hc1 & Hd1).
  { rewrite E1. repeat split. }
  destruct (release_next s1 b r p n v Hq1 Hb1 Hr1) as (Hc' & evs & Hlog).
  fold s' in Hc', Hlog. rewrite Hc1 in Hc'. rewrite Hc1, Hd1, Hl1 in Hlog.
  split; [exact Hl1|]. split; [exact Hc1|]. split; [exact Hc'|].
  exists evs. exact Hlog.
Qed.

Lemma write_in_flight_reruns_witness :
  let fn := {| fn_id := 5; fn_throws := None; fn_reenters := true |} in
  let q : QRL := λ _, {| acts := []; fin := Await |} in
  let s := run_inputs [InRun] (fresh (mkWatch q 0 6 0)) in
  calls (run_inputs [InSettle 1%nat (inr (VFunction fn)); InTick; InTick]
           (run_inputs [InWrite; InRun] s)) = 2%nat.
Proof.
  intros fn q s.
  exact (proj1 (proj2 (proj2 (write_in_flight_reruns s 1%nat 0%nat 0%nat (VFunction fn)
                                eq_refl eq_refl eq_refl eq_refl)))).
Defined.
